(* Verification of blwipe (blwipe.go): BitLocker metadata parsing and
   cryptographic erasure.

   Shallow embedding conventions:
   - a byte is a Z in [0, 255]; a byte buffer is a list Z;
   - Go's uint16/uint32/uint64 values are Z, int64 arithmetic wraps as
     written out by [wrap64];
   - an [*os.File] (an io.ReadSeeker/Writer) is a [file]: its contents and
     its current position;
   - [binary.Read] of a fixed-size struct reads the whole encoded size with
     io.ReadFull and decodes only after the read succeeded, so it either
     fails leaving the destination untouched or fills it completely. *)

From Stdlib Require Import ZArith List String Ascii Bool Lia.
Import ListNotations.
Open Scope Z_scope.

(* ------------------------------------------------------------------------- *)
(** * Machine integers and little-endian bytes *)

Definition int64_of_uint64 (x : Z) : Z := if x <? 2 ^ 63 then x else x - 2 ^ 64.

(** Two's complement wrap of a mathematical integer into int64. *)
Definition wrap64 (x : Z) : Z := int64_of_uint64 (x mod 2 ^ 64).

Definition add64 (a b : Z) : Z := wrap64 (a + b).
Definition sub64 (a b : Z) : Z := wrap64 (a - b).

Fixpoint le (bs : list Z) : Z :=
  match bs with
  | [] => 0
  | b :: t => b + 256 * le t
  end.

Definition slice (off len : nat) (bs : list Z) : list Z := firstn len (skipn off bs).

(** Little-endian unsigned field of [len] bytes at byte [off]. *)
Definition le_at (off len : nat) (bs : list Z) : Z := le (slice off len bs).

(** Little-endian encoding of [n] into [len] bytes. *)
Fixpoint le_bytes (len : nat) (n : Z) : list Z :=
  match len with
  | O => []
  | S l => n mod 256 :: le_bytes l (n / 256)
  end.

(* ------------------------------------------------------------------------- *)
(** * Files: an io.ReadSeeker and io.Writer over a byte buffer *)

Record file := mkFile { data : list Z; pos : Z }.

Definition flen (f : file) : Z := Z.of_nat (List.length (data f)).

(** [f.Seek(off, whence)]: whence 0 is io.SeekStart, 1 is io.SeekCurrent.
    A negative resulting position is an error and leaves the position as it
    was; the boolean tells whether the seek succeeded. *)
Definition seek (f : file) (off whence : Z) : file * bool :=
  let base := if whence =? 0 then 0 else pos f in
  let np := base + off in
  if np <? 0 then (f, false) else (mkFile (data f) np, true).

(** [io.ReadFull(r, buf)] with [len(buf) = n]: succeeds with exactly [n]
    bytes, or fails (io.EOF / io.ErrUnexpectedEOF) after consuming what was
    left. *)
Definition read_full (n : Z) (f : file) : option (list Z) * file :=
  if (n =? 0) || (pos f + n <=? flen f) then
    (Some (slice (Z.to_nat (pos f)) (Z.to_nat n) (data f)), mkFile (data f) (pos f + n))
  else (None, mkFile (data f) (Z.max (pos f) (flen f))).

(** [binary.Read(r, binary.LittleEndian, &v)] for a struct whose encoded
    size is [n] and whose field decoder is [dec]. *)
Definition binary_read {A : Type} (n : Z) (dec : list Z -> A) (f : file)
  : option A * file :=
  match read_full n f with
  | (Some b, f') => (Some (dec b), f')
  | (None, f') => (None, f')
  end.

(** Overwriting [buf] at position [p], extending the file with zero bytes
    when [p] lies past its end (what a write after a seek past EOF does). *)
Definition write_at (p : Z) (buf : list Z) (d : list Z) : list Z :=
  let pn := Z.to_nat p in
  firstn pn d ++ repeat 0 (pn - List.length d) ++ buf ++ skipn (pn + List.length buf) d.

(* ------------------------------------------------------------------------- *)
(** * crc32.ChecksumIEEE (reflected polynomial 0xEDB88320) *)

Definition crc_shift (c : Z) : Z :=
  if Z.odd c then Z.lxor (Z.shiftr c 1) 0xEDB88320 else Z.shiftr c 1.

Definition crc_byte (c b : Z) : Z := Nat.iter 8 crc_shift (Z.lxor c b).

Definition ChecksumIEEE (bs : list Z) : Z :=
  Z.lxor (fold_left crc_byte bs 0xFFFFFFFF) 0xFFFFFFFF.

(* ------------------------------------------------------------------------- *)
(** * Signatures *)

Definition list_of_string (s : string) : list Z :=
  map (fun a => Z.of_nat (nat_of_ascii a)) (list_ascii_of_string s).

(** [VerifySignature(b) = string(b[:]) == "-FVE-FS-"] *)
Definition VerifySignature (b : list Z) : bool :=
  if list_eq_dec Z.eq_dec b (list_of_string "-FVE-FS-") then true else false.

(* ------------------------------------------------------------------------- *)
(** * Metadata blocks (InfoStruct) *)

Record InfoStructHeader := mkInfoStructHeader {
  ih_Signature : list Z;   (* [8]byte *)
  ih_Size : Z;             (* uint16 *)
  ih_Version : Z           (* uint16 *)
}.

Definition InfoStructHeader_size : Z := 12.

Definition decode_InfoStructHeader (b : list Z) : InfoStructHeader :=
  mkInfoStructHeader (slice 0 8 b) (le_at 8 2 b) (le_at 10 2 b).

Record InfoStruct := mkInfoStruct {
  is_hdr : InfoStructHeader;
  (* _ [2 + 2]byte *)
  VolumeSize : Z;            (* uint64 *)
  ConvertSize : Z;           (* uint32 *)
  HeaderSectors : Z;         (* uint32 *)
  InfoOffsets : list Z;      (* [3]uint64 *)
  HeaderSectorsOffset : Z    (* uint64 *)
}.

Definition InfoStruct_size : Z := 64.

(** The Go zero value [InfoStruct{}]. *)
Definition InfoStruct_zero : InfoStruct :=
  mkInfoStruct (mkInfoStructHeader (repeat 0 8) 0 0) 0 0 0 [0; 0; 0] 0.

Definition decode_InfoStruct (b : list Z) : InfoStruct :=
  mkInfoStruct (decode_InfoStructHeader b)
    (le_at 16 8 b) (le_at 24 4 b) (le_at 28 4 b)
    [le_at 32 8 b; le_at 40 8 b; le_at 48 8 b]
    (le_at 56 8 b).

Record ValidationHeader := mkValidationHeader {
  vd_Size : Z;      (* uint16 *)
  vd_Version : Z;   (* uint16 *)
  vd_Crc32 : Z      (* uint32 *)
}.

Definition ValidationHeader_size : Z := 8.

Definition decode_ValidationHeader (b : list Z) : ValidationHeader :=
  mkValidationHeader (le_at 0 2 b) (le_at 2 2 b) (le_at 4 4 b).

(** The errors [InfoStruct.Read] returns. *)
Inductive read_error :=
| ErrShortRead                         (* io.EOF / io.ErrUnexpectedEOF *)
| ErrBadSignature (sig : list Z)       (* "invalid signature %q" *)
| ErrUnknownVersion                    (* "unknown version %x" *)
| ErrSizeTooSmall                      (* "size too small" *)
| ErrValidationHeader                  (* "cannot read validation header" *)
| ErrChecksum (stored computed : Z).   (* "validation checksum mismatch" *)

(** Lines 111-145 of [InfoStruct.Read], from the point where [size] holds
    the version-interpreted payload size and [r] is just past the 12-byte
    header. Result: the receiver, the reader, the returned [size] and the
    returned [err]. *)
Definition read_payload (s : InfoStruct) (r : file) (size : Z)
  : InfoStruct * file * Z * option read_error :=
  if size <? 64 then (s, r, size, Some ErrSizeTooSmall) else
  (* rewind and read struct in full; the Seek error is ignored *)
  let r1 := fst (seek r (- InfoStructHeader_size) 1) in
  match read_full size r1 with
  | (None, r2) => (s, r2, size, Some ErrShortRead)
  | (Some buf, r2) =>
    match binary_read ValidationHeader_size decode_ValidationHeader r2 with
    | (None, r3) => (s, r3, size, Some ErrValidationHeader)
    | (Some validation, r3) =>
      let checksum := ChecksumIEEE buf in
      if negb (checksum =? vd_Crc32 validation) then
        (s, r3, size, Some (ErrChecksum (vd_Crc32 validation) checksum))
      else
      let size' := size + vd_Size validation in
      (* parse whatever we read & verified: binary.Read from bytes.NewReader(buf) *)
      match binary_read InfoStruct_size decode_InfoStruct (mkFile buf 0) with
      | (Some s', _) => (s', r3, size', None)
      | (None, _) => (s, r3, size', Some ErrShortRead)
      end
    end
  end.

(** [func (s *InfoStruct) Read(r io.ReadSeeker) (size int64, err error)] *)
Definition InfoStruct_Read (s : InfoStruct) (r : file)
  : InfoStruct * file * Z * option read_error :=
  match binary_read InfoStructHeader_size decode_InfoStructHeader r with
  | (None, r1) => (s, r1, -1, Some ErrShortRead)
  | (Some hdr, r1) =>
    if negb (VerifySignature (ih_Signature hdr)) then
      (s, r1, -1, Some (ErrBadSignature (ih_Signature hdr)))
    else
    let size := ih_Size hdr in
    match ih_Version hdr with
    | 1 => read_payload s r1 size
    | 2 => read_payload s r1 (size * 16)
    | _ => (s, r1, size, Some ErrUnknownVersion)
    end
  end.

Example crc_check_value :
  ChecksumIEEE (list_of_string "123456789") = 0xCBF43926.
Proof. vm_compute. reflexivity. Qed.

(* ------------------------------------------------------------------------- *)
(** * GUIDs *)

Record Guid := mkGuid {
  A : Z;          (* uint32 *)
  B : Z;          (* uint16 *)
  C : Z;          (* uint16 *)
  D : list Z;     (* [2]byte *)
  E : list Z      (* [6]byte *)
}.

Definition decode_Guid (b : list Z) : Guid :=
  mkGuid (le_at 0 4 b) (le_at 4 2 b) (le_at 6 2 b) (slice 8 2 b) (slice 10 6 b).

Definition hexdigit (n : Z) : ascii :=
  ascii_of_nat (Z.to_nat (if n <? 10 then 48 + n else 55 + n)).

(** Go's [%0wX] for a value that fits in [w] hex digits. *)
Fixpoint hexw (w : nat) (n : Z) : list ascii :=
  match w with
  | O => []
  | S w' => hexw w' (n / 16) ++ [hexdigit (n mod 16)]
  end.

Definition dash : list ascii := ["-"%char].

(** [func (g Guid) String() string] *)
Definition Guid_String (g : Guid) : string :=
  let byte i l := hexw 2 (nth i l 0) in
  string_of_list_ascii
    (hexw 8 (A g) ++ dash ++ hexw 4 (B g) ++ dash ++ hexw 4 (C g) ++ dash ++
     byte 0%nat (D g) ++ byte 1%nat (D g) ++ dash ++
     byte 0%nat (E g) ++ byte 1%nat (E g) ++ byte 2%nat (E g) ++
     byte 3%nat (E g) ++ byte 4%nat (E g) ++ byte 5%nat (E g)).

Definition INFO_GUID : string := "4967D63B-2E29-4AD8-8399-F6A339E3D001".

(* ------------------------------------------------------------------------- *)
(** * The volume header *)

Record VolumeHeader := mkVolumeHeader {
  Jmp : list Z;                 (* [3]byte *)
  vh_Signature : list Z;        (* [8]byte *)
  SectorSize : Z;               (* uint16 *)
  SectorsPerCluster : Z;        (* uint8 *)
  ReservedClusters : Z;         (* uint16 *)
  NumSectors : Z;               (* uint64 *)
  MftStartCluster : Z;          (* uint64 *)
  MetadataLcn : Z;              (* uint64 *)
  vh_Guid : Guid;
  vh_InfoOffsets : list Z;      (* [3]uint64 *)
  EOWOffsets : list Z           (* [2]uint64 *)
}.

Definition VolumeHeader_size : Z := 216.

(** Field layout of [VolumeHeader]; the blank fields are the skipped spans
    16..35, 36..39 and 64..159. *)
Definition decode_VolumeHeader (b : list Z) : VolumeHeader :=
  mkVolumeHeader (slice 0 3 b) (slice 3 8 b) (le_at 11 2 b) (le_at 13 1 b)
    (le_at 14 2 b) (le_at 40 8 b) (le_at 48 8 b) (le_at 56 8 b)
    (decode_Guid (slice 160 16 b))
    [le_at 176 8 b; le_at 184 8 b; le_at 192 8 b]
    [le_at 200 8 b; le_at 208 8 b].

(* ------------------------------------------------------------------------- *)
(** * The program: main *)

(** The command-line flags [-offset], [-v] and [-wipe]. *)
Record config := mkConfig { offset : Z; verbose : bool; doWipe : bool }.

(** The diagnostics [fatal] prints before [os.Exit(1)]. *)
Inductive fatal_msg :=
| FatalOffsetNegative       (* "offset cannot be negative" *)
| FatalReadHeader           (* "can't read header: %s" *)
| FatalBadSignature         (* "invalid volume header signature %q" *)
| FatalWeirdSectorSize      (* "weird sector size: %d" *)
| FatalUnsupportedGuid      (* "unsupported GUID %v" *)
| FatalNoMetadata           (* "invalid or no metadata blocks found!" *)
| FatalRand.                (* "unable to generate rand bytes: %v" *)

(** The lines printed on standard output (the [-v] dumps are left out). *)
Inductive log_line :=
| LogMetadataOffset (i : nat) (off : Z)
| LogParseError (i : nat) (e : read_error)
| LogBlockParsed (i : nat) (size : Z)
| LogOverwriting (name : string) (off size : Z)
| LogWriteError.

(** The end of a run: exit status, standard output, the [fatal] diagnostic
    if any, and the contents of the volume file. *)
Record run := mkRun {
  exit_code : Z;
  stdout : list log_line;
  stderr : option fatal_msg;
  disk : list Z
}.

Definition fatal (m : fatal_msg) (log : list log_line) (d : list Z) : run :=
  mkRun 1 log (Some m) d.

Definition newline : string := String (ascii_of_nat 10) EmptyString.

(** Lines 153-155 of [fatal]: the format string gets a trailing newline
    unless it is empty or already ends with one. *)
Definition fatal_format (format : string) : string :=
  if (0 <? String.length format)%nat &&
     negb (String.eqb (substring (String.length format - 1) 1 format) newline)
  then String.append format newline
  else format.

(** Lines 194-205: validation of the volume header, in the code's order. *)
Definition validate_header (hdr : VolumeHeader) : option fatal_msg :=
  if negb (VerifySignature (vh_Signature hdr)) then Some FatalBadSignature
  else if SectorSize hdr <? 512 then Some FatalWeirdSectorSize
  else if negb (String.eqb (Guid_String (vh_Guid hdr)) INFO_GUID) then
    Some FatalUnsupportedGuid
  else None.

(** The rounding of line 236, in int64:
    [(infoSize + int64(hdr.SectorSize) - 1) & ^(int64(hdr.SectorSize) - 1)]. *)
Definition round_up (infoSize sectorSize : Z) : Z :=
  Z.land (sub64 (add64 infoSize sectorSize) 1) (Z.lnot (sub64 sectorSize 1)).

(** The state of the loop over the metadata blocks (lines 215-244): the
    file, the shared [info] variable, [validInfoSize], [validInfoOffsets]
    and the output so far. *)
Record scan_state := mkScan {
  sc_file : file;
  info : InfoStruct;
  validInfoSize : Z;
  validInfoOffsets : list Z;
  sc_log : list log_line
}.

Definition scan_step (base sectorSize : Z) (i : nat) (infoOff : Z)
  (st : scan_state) : scan_state :=
  let f1 := fst (seek (sc_file st) (add64 base (int64_of_uint64 infoOff)) 0) in
  match InfoStruct_Read (info st) f1 with
  | (info', f2, _, Some e) =>
    mkScan f2 info' (validInfoSize st) (validInfoOffsets st)
      (sc_log st ++ [LogParseError i e])
  | (info', f2, infoSize, None) =>
    (* record valid data here *)
    let offs := map int64_of_uint64 (InfoOffsets info') in
    (* round up to sector size *)
    let infoSize' := round_up infoSize sectorSize in
    mkScan f2 info' infoSize offs (sc_log st ++ [LogBlockParsed i infoSize'])
  end.

Fixpoint scan_loop (base sectorSize : Z) (i : nat) (offs : list Z)
  (st : scan_state) : scan_state :=
  match offs with
  | [] => st
  | o :: rest => scan_loop base sectorSize (S i) rest (scan_step base sectorSize i o st)
  end.

Record RegionDesc := mkRegion { Name : string; Offset : Z; Size : Z }.

(** Lines 251-256. *)
Definition eraseRegions (hdr : VolumeHeader) (validInfoSize : Z)
  (validInfoOffsets : list Z) : list RegionDesc :=
  [ mkRegion "volume header" 0 (SectorSize hdr);
    mkRegion "metadata block 0" (nth 0 validInfoOffsets 0) validInfoSize;
    mkRegion "metadata block 1" (nth 1 validInfoOffsets 0) validInfoSize;
    mkRegion "metadata block 2" (nth 2 validInfoOffsets 0) validInfoSize ].

(** The outside world of the wipe: the outcome of the [k]-th call of
    [rand.Read] (an error, or the random bytes it produces, by position) and
    whether the [k]-th [f.Write] succeeds. *)
Record env := mkEnv {
  rand_read : nat -> option (nat -> Z);
  write_ok : nat -> bool
}.

(** [f.Write(buf)]: on success the bytes land at the current position,
    which advances; a failed write is modelled as writing nothing. *)
Definition file_write (ev : env) (k : nat) (buf : list Z) (f : file) : option file :=
  if write_ok ev k then
    Some (mkFile (write_at (pos f) buf (data f)) (pos f + Z.of_nat (List.length buf)))
  else None.

(** Lines 258-275; [k] counts the calls made so far. *)
Fixpoint wipe_loop (ev : env) (base : Z) (k : nat) (regions : list RegionDesc)
  (f : file) (log : list log_line) : run :=
  match regions with
  | [] => mkRun 0 log None (data f)
  | region :: rest =>
    (* eraseBuf := make([]byte, region.Size); rand.Read(eraseBuf) *)
    match rand_read ev k with
    | None => fatal FatalRand log (data f)
    | Some g =>
      let eraseBuf := map g (seq 0 (Z.to_nat (Size region))) in
      let log1 := log ++ [LogOverwriting (Name region) (Offset region) (Size region)] in
      let f1 := fst (seek f (add64 base (Offset region)) 0) in
      match file_write ev k eraseBuf f1 with
      | None => wipe_loop ev base (S k) rest f1 (log1 ++ [LogWriteError])
      | Some f2 => wipe_loop ev base (S k) rest f2 log1
      end
    end
  end.

(** What [main] has decided before the wipe: either it exited through
    [fatal], or it carries on with the validated header and the state after
    the scan of the metadata blocks. *)
Inductive analysis :=
| Fatal (r : run)
| Analysed (hdr : VolumeHeader) (st : scan_state).

(** Lines 177-248, for a file already opened with contents [d]. *)
Definition analyse (cfg : config) (d : list Z) : analysis :=
  if offset cfg <? 0 then Fatal (fatal FatalOffsetNegative [] d) else
  let f0 := fst (seek (mkFile d 0) (offset cfg) 0) in
  match binary_read VolumeHeader_size decode_VolumeHeader f0 with
  | (None, _) => Fatal (fatal FatalReadHeader [] d)
  | (Some hdr, f1) =>
    match validate_header hdr with
    | Some m => Fatal (fatal m [] d)
    | None =>
      let log0 := map (fun p => LogMetadataOffset (fst p) (snd p))
                      (combine (seq 0 3) (vh_InfoOffsets hdr)) in
      let st := scan_loop (offset cfg) (SectorSize hdr) 0 (vh_InfoOffsets hdr)
                  (mkScan f1 InfoStruct_zero 0 [0; 0; 0] log0) in
      if validInfoSize st =? 0 then Fatal (fatal FatalNoMetadata (sc_log st) d)
      else Analysed hdr st
    end
  end.

(** The regions [main] overwrites, [None] when it does not wipe. *)
Definition erase_plan (cfg : config) (d : list Z) : option (list RegionDesc) :=
  match analyse cfg d with
  | Analysed hdr st =>
    if doWipe cfg then Some (eraseRegions hdr (validInfoSize st) (validInfoOffsets st))
    else None
  | Fatal _ => None
  end.

(** [func main()] *)
Definition main (cfg : config) (d : list Z) (ev : env) : run :=
  match analyse cfg d with
  | Fatal r => r
  | Analysed hdr st =>
    if doWipe cfg then
      wipe_loop ev (offset cfg) 0
        (eraseRegions hdr (validInfoSize st) (validInfoOffsets st))
        (sc_file st) (sc_log st)
    else mkRun 0 (sc_log st) None d
  end.

(** The wipe as the specification describes it (§4.5), for comparison with
    [wipe_loop]: region by region in list order, a fresh random buffer of
    exactly the region's length written at base offset plus region offset;
    a failed write is reported and the next region is processed; a failed
    random generation ends the run with status 1. *)
Fixpoint wipe_claimed (ev : env) (base : Z) (k : nat) (regions : list RegionDesc)
  (d : list Z) (log : list log_line) : run :=
  match regions with
  | [] => mkRun 0 log None d
  | region :: rest =>
    match rand_read ev k with
    | None => mkRun 1 log (Some FatalRand) d
    | Some g =>
      let buf := map g (seq 0 (Z.to_nat (Size region))) in
      let log1 := log ++ [LogOverwriting (Name region) (Offset region) (Size region)] in
      if write_ok ev k then
        wipe_claimed ev base (S k) rest (write_at (base + Offset region) buf d) log1
      else wipe_claimed ev base (S k) rest d (log1 ++ [LogWriteError])
    end
  end.

(* ------------------------------------------------------------------------- *)
(** * Sample volume images *)

Definition guid_bytes : list Z :=
  le_bytes 4 0x4967D63B ++ le_bytes 2 0x2E29 ++ le_bytes 2 0x4AD8 ++
  [0x83; 0x99; 0xF6; 0xA3; 0x39; 0xE3; 0xD0; 0x01].

Definition sample_header (sector : Z) (offs : list Z) : list Z :=
  [0xEB; 0x58; 0x90] ++ list_of_string "-FVE-FS-" ++ le_bytes 2 sector ++
  repeat 0 147 ++ guid_bytes ++ flat_map (le_bytes 8) offs ++ repeat 0 16.

Definition sample_payload (version raw : Z) (offs : list Z) : list Z :=
  let size := if version =? 2 then raw * 16 else raw in
  list_of_string "-FVE-FS-" ++ le_bytes 2 raw ++ le_bytes 2 version ++
  repeat 0 20 ++ flat_map (le_bytes 8) offs ++ repeat 0 (Z.to_nat size - 56).

(** A metadata block followed by its validation header; [crc_delta] is
    added to the stored checksum (0 for a valid block). *)
Definition sample_block (version raw extra crc_delta : Z) (offs : list Z) : list Z :=
  let p := sample_payload version raw offs in
  p ++ le_bytes 2 extra ++ le_bytes 2 1 ++ le_bytes 4 (ChecksumIEEE p + crc_delta).

Definition pad_to (n : nat) (l : list Z) : list Z := l ++ repeat 0 (n - List.length l).

Definition sample_offsets : list Z := [512; 1024; 1536].

(** Header with sector size [sector]; a valid 64-byte version-1 block at 512
    (footer extra size 0); no block at 1024 nor at 1536. *)
Definition sample_disk (sector : Z) : list Z :=
  pad_to 512 (sample_header sector sample_offsets) ++
  pad_to 512 (sample_block 1 64 0 0 sample_offsets) ++ repeat 0 1024.

(** The same with the checksum of the block at 512 broken. *)
Definition sample_disk_bad : list Z :=
  pad_to 512 (sample_header 512 sample_offsets) ++
  pad_to 512 (sample_block 1 64 0 1 sample_offsets) ++ repeat 0 1024.

Definition sample_env (write_fails : nat) (rand_fails : nat) : env :=
  mkEnv (fun k => if Nat.eqb k rand_fails then None else Some (fun j => Z.of_nat ((k * 7 + j) mod 256)))
        (fun k => negb (Nat.eqb k write_fails)).

(* ------------------------------------------------------------------------- *)
(** * Lemmas on the file model *)

Lemma slice_length (off len : nat) (l : list Z) :
  (off + len <= List.length l)%nat -> List.length (slice off len l) = len.
Proof.
  intros H. unfold slice. rewrite length_firstn, length_skipn. lia.
Qed.

Lemma read_full_ok (n p : Z) (d : list Z) :
  0 <= p -> 0 <= n -> p + n <= Z.of_nat (List.length d) ->
  read_full n (mkFile d p) =
    (Some (slice (Z.to_nat p) (Z.to_nat n) d), mkFile d (p + n)).
Proof.
  intros Hp Hn Hl. unfold read_full, flen. simpl.
  replace (p + n <=? Z.of_nat (List.length d)) with true
    by (symmetry; apply Z.leb_le; exact Hl).
  rewrite orb_true_r. reflexivity.
Qed.

Lemma slice_firstn (off len m : nat) (l : list Z) :
  (off + len <= m)%nat -> slice off len (firstn m l) = slice off len l.
Proof.
  intros H. unfold slice. rewrite skipn_firstn_comm, firstn_firstn.
  f_equal. lia.
Qed.

Lemma decode_InfoStruct_firstn (b : list Z) :
  decode_InfoStruct (firstn 64 b) = decode_InfoStruct b.
Proof.
  unfold decode_InfoStruct, decode_InfoStructHeader, le_at.
  repeat rewrite slice_firstn by lia. reflexivity.
Qed.

(** [InfoStruct.Read] at position [p] once a 12-byte header with a valid
    signature has been read: the version switch. *)
Lemma Read_after_header (s : InfoStruct) (d : list Z) (p : Z) :
  0 <= p -> p + 12 <= Z.of_nat (List.length d) ->
  let hdr := decode_InfoStructHeader (slice (Z.to_nat p) 12 d) in
  VerifySignature (ih_Signature hdr) = true ->
  InfoStruct_Read s (mkFile d p) =
    match ih_Version hdr with
    | 1 => read_payload s (mkFile d (p + 12)) (ih_Size hdr)
    | 2 => read_payload s (mkFile d (p + 12)) (ih_Size hdr * 16)
    | _ => (s, mkFile d (p + 12), ih_Size hdr, Some ErrUnknownVersion)
    end.
Proof.
  intros Hp Hl hdr Hsig. unfold InfoStruct_Read, binary_read, InfoStructHeader_size.
  rewrite read_full_ok by lia. change (Z.to_nat 12) with 12%nat. cbn iota. fold hdr. rewrite Hsig. reflexivity.
Qed.

(** The rest of [InfoStruct.Read] when payload and footer are on the file. *)
Lemma read_payload_full (s : InfoStruct) (d : list Z) (p size : Z) :
  0 <= p -> 64 <= size -> p + size + 8 <= Z.of_nat (List.length d) ->
  let buf := slice (Z.to_nat p) (Z.to_nat size) d in
  let v := decode_ValidationHeader (slice (Z.to_nat (p + size)) 8 d) in
  read_payload s (mkFile d (p + 12)) size =
    if negb (ChecksumIEEE buf =? vd_Crc32 v) then
      (s, mkFile d (p + size + 8), size, Some (ErrChecksum (vd_Crc32 v) (ChecksumIEEE buf)))
    else (decode_InfoStruct buf, mkFile d (p + size + 8), size + vd_Size v, None).
Proof.
  intros Hp Hs Hl buf v. unfold read_payload.
  destruct (size <? 64) eqn:E; [apply Z.ltb_lt in E; lia|].
  assert (Hsk : seek (mkFile d (p + 12)) (- InfoStructHeader_size) 1 = (mkFile d p, true)).
  { unfold seek, InfoStructHeader_size. simpl.
    destruct (p + 12 + - 12 <? 0) eqn:E2; [apply Z.ltb_lt in E2; lia|].
    do 2 f_equal. lia. }
  rewrite Hsk. cbn [fst].
  rewrite read_full_ok by lia. fold buf.
  unfold binary_read, ValidationHeader_size.
  rewrite read_full_ok by lia. change (Z.to_nat 8) with 8%nat. fold v.
  destruct (negb (ChecksumIEEE buf =? vd_Crc32 v)); [reflexivity|].
  assert (Hb : List.length buf = Z.to_nat size)
    by (apply slice_length; lia).
  unfold InfoStruct_size. rewrite read_full_ok by lia.
  change (Z.to_nat 64) with 64%nat. unfold slice at 1. simpl skipn. rewrite decode_InfoStruct_firstn.
  reflexivity.
Qed.

(** [InfoStruct.Read] on a block whose header verifies, whose version gives
    [size >= 64], and whose payload and footer are on the file. *)
Lemma Read_full_block (s : InfoStruct) (d : list Z) (p size : Z) :
  0 <= p -> p + size + 8 <= Z.of_nat (List.length d) ->
  let hdr := decode_InfoStructHeader (slice (Z.to_nat p) 12 d) in
  VerifySignature (ih_Signature hdr) = true ->
  (ih_Version hdr = 1 /\ size = ih_Size hdr \/ ih_Version hdr = 2 /\ size = ih_Size hdr * 16) ->
  64 <= size ->
  let buf := slice (Z.to_nat p) (Z.to_nat size) d in
  let v := decode_ValidationHeader (slice (Z.to_nat (p + size)) 8 d) in
  InfoStruct_Read s (mkFile d p) =
    if negb (ChecksumIEEE buf =? vd_Crc32 v) then
      (s, mkFile d (p + size + 8), size, Some (ErrChecksum (vd_Crc32 v) (ChecksumIEEE buf)))
    else (decode_InfoStruct buf, mkFile d (p + size + 8), size + vd_Size v, None).
Proof.
  intros Hp Hl hdr Hsig Hv Hs buf v.
  rewrite (Read_after_header s d p Hp ltac:(lia) Hsig). fold hdr.
  destruct Hv as [[Hv ->] | [Hv ->]]; rewrite Hv;
    apply read_payload_full; lia.
Qed.

Ltac eval_hyp := first [ lia | reflexivity | vm_compute; first [ reflexivity | discriminate | intro; discriminate | lia ] ].

Definition bad_block : list Z := sample_block 1 64 0 1 sample_offsets.
Definition good_block : list Z := sample_block 2 4 5 0 sample_offsets.
Definition small_block : list Z := sample_block 1 48 0 0 sample_offsets.

(* ------------------------------------------------------------------------- *)
(** * Metadata block decoding: InfoStruct.Read *)

(** C3: for a candidate block at [p] whose header verifies and whose
    version-interpreted size is at least 64, the checksum is the IEEE CRC-32
    of the whole [size]-byte buffer starting at the block's first byte (so
    the buffer re-includes the 12-byte header); when it differs from the
    footer's stored checksum, [Read] fails with a checksum-mismatch error
    carrying the stored and the computed values and leaves the receiver
    untouched. *)
Theorem Read_checksum_mismatch (s : InfoStruct) (d : list Z) (p size : Z) :
  0 <= p -> p + size + 8 <= Z.of_nat (List.length d) ->
  let hdr := decode_InfoStructHeader (slice (Z.to_nat p) 12 d) in
  VerifySignature (ih_Signature hdr) = true ->
  (ih_Version hdr = 1 /\ size = ih_Size hdr \/ ih_Version hdr = 2 /\ size = ih_Size hdr * 16) ->
  64 <= size ->
  let buf := slice (Z.to_nat p) (Z.to_nat size) d in
  let stored := vd_Crc32 (decode_ValidationHeader (slice (Z.to_nat (p + size)) 8 d)) in
  ChecksumIEEE buf <> stored ->
  firstn 12 buf = slice (Z.to_nat p) 12 d /\
  InfoStruct_Read s (mkFile d p) =
    (s, mkFile d (p + size + 8), size, Some (ErrChecksum stored (ChecksumIEEE buf))).
Proof.
  intros Hp Hl hdr Hsig Hv Hs buf stored Hne. split.
  - unfold buf, slice. rewrite firstn_firstn. f_equal. lia.
  - rewrite (Read_full_block s d p size Hp Hl Hsig Hv Hs).
    fold buf. fold stored.
    apply Z.eqb_neq in Hne. rewrite Hne. reflexivity.
Qed.

Lemma Read_checksum_mismatch_witness :
  firstn 12 (slice 0 64 bad_block) = slice 0 12 bad_block /\
  InfoStruct_Read InfoStruct_zero (mkFile bad_block 0) =
    (InfoStruct_zero, mkFile bad_block (0 + 64 + 8), 64,
     Some (ErrChecksum (vd_Crc32 (decode_ValidationHeader (slice (Z.to_nat (0 + 64)) 8 bad_block)))
                       (ChecksumIEEE (slice 0 64 bad_block)))).
Proof.
  refine (Read_checksum_mismatch InfoStruct_zero bad_block 0 64 _ _ _ _ _ _);
    [ eval_hyp | eval_hyp | eval_hyp | left; split; eval_hyp | eval_hyp | eval_hyp ].
Defined.

(** C4: once the 12-byte header at [p] is read and its signature verifies,
    the version tag decides the size: version 1 continues with the raw
    16-bit size field, version 2 with the raw field times 16, and any other
    version fails with the unknown-version error. *)
Theorem Read_version_dispatch (s : InfoStruct) (d : list Z) (p : Z) :
  0 <= p -> p + 12 <= Z.of_nat (List.length d) ->
  let hdr := decode_InfoStructHeader (slice (Z.to_nat p) 12 d) in
  VerifySignature (ih_Signature hdr) = true ->
  ih_Size hdr = le_at 8 2 (slice (Z.to_nat p) 12 d) /\
  (ih_Version hdr = 1 ->
     InfoStruct_Read s (mkFile d p) = read_payload s (mkFile d (p + 12)) (ih_Size hdr)) /\
  (ih_Version hdr = 2 ->
     InfoStruct_Read s (mkFile d p) = read_payload s (mkFile d (p + 12)) (ih_Size hdr * 16)) /\
  (ih_Version hdr <> 1 -> ih_Version hdr <> 2 ->
     InfoStruct_Read s (mkFile d p) =
       (s, mkFile d (p + 12), ih_Size hdr, Some ErrUnknownVersion)).
Proof.
  intros Hp Hl hdr Hsig.
  pose proof (Read_after_header s d p Hp Hl Hsig) as R. fold hdr in R.
  split; [reflexivity|].
  split; [intros Hv; rewrite R, Hv; reflexivity|].
  split; [intros Hv; rewrite R, Hv; reflexivity|].
  intros H1 H2. rewrite R.
  destruct (ih_Version hdr) as [|[q|q|]|q]; try reflexivity;
    [destruct q; try reflexivity; congruence | congruence].
Qed.

Lemma Read_version_dispatch_witness :
  InfoStruct_Read InfoStruct_zero (mkFile good_block 0) =
    read_payload InfoStruct_zero (mkFile good_block (0 + 12)) (4 * 16).
Proof.
  refine (proj1 (proj2 (proj2 (Read_version_dispatch InfoStruct_zero good_block 0 _ _ _))) _);
    eval_hyp.
Defined.

(** C7: when the checksum matches, [Read] succeeds, returns the total size
    [size + footer extra size], and the receiver becomes the little-endian
    decoding of the payload buffer. *)
Theorem Read_success (s : InfoStruct) (d : list Z) (p size : Z) :
  0 <= p -> p + size + 8 <= Z.of_nat (List.length d) ->
  let hdr := decode_InfoStructHeader (slice (Z.to_nat p) 12 d) in
  VerifySignature (ih_Signature hdr) = true ->
  (ih_Version hdr = 1 /\ size = ih_Size hdr \/ ih_Version hdr = 2 /\ size = ih_Size hdr * 16) ->
  64 <= size ->
  let buf := slice (Z.to_nat p) (Z.to_nat size) d in
  let v := decode_ValidationHeader (slice (Z.to_nat (p + size)) 8 d) in
  ChecksumIEEE buf = vd_Crc32 v ->
  InfoStruct_Read s (mkFile d p) =
    (decode_InfoStruct buf, mkFile d (p + size + 8), size + vd_Size v, None).
Proof.
  intros Hp Hl hdr Hsig Hv Hs buf v Heq.
  rewrite (Read_full_block s d p size Hp Hl Hsig Hv Hs). fold buf v.
  rewrite Heq, Z.eqb_refl. reflexivity.
Qed.

Lemma Read_success_witness :
  InfoStruct_Read InfoStruct_zero (mkFile good_block 0) =
    (decode_InfoStruct (slice 0 64 good_block), mkFile good_block (0 + 64 + 8),
     64 + vd_Size (decode_ValidationHeader (slice (Z.to_nat (0 + 64)) 8 good_block)), None).
Proof.
  refine (Read_success InfoStruct_zero good_block 0 64 _ _ _ _ _ _);
    [ eval_hyp | eval_hyp | eval_hyp | right; split; eval_hyp | eval_hyp | eval_hyp ].
Defined.

(** C8: when the version-interpreted size is below 64, [Read] fails with
    the size-too-small error with the reader just past the 12-byte header:
    nothing of the payload has been read. *)
Theorem Read_size_too_small (s : InfoStruct) (d : list Z) (p size : Z) :
  0 <= p -> p + 12 <= Z.of_nat (List.length d) ->
  let hdr := decode_InfoStructHeader (slice (Z.to_nat p) 12 d) in
  VerifySignature (ih_Signature hdr) = true ->
  (ih_Version hdr = 1 /\ size = ih_Size hdr \/ ih_Version hdr = 2 /\ size = ih_Size hdr * 16) ->
  size < 64 ->
  InfoStruct_Read s (mkFile d p) = (s, mkFile d (p + 12), size, Some ErrSizeTooSmall).
Proof.
  intros Hp Hl hdr Hsig Hv Hs.
  rewrite (Read_after_header s d p Hp Hl Hsig). fold hdr.
  unfold read_payload.
  destruct Hv as [[Hv ->] | [Hv ->]]; rewrite Hv;
    apply Z.ltb_lt in Hs; rewrite Hs; reflexivity.
Qed.

Lemma Read_size_too_small_witness :
  InfoStruct_Read InfoStruct_zero (mkFile small_block 0) =
    (InfoStruct_zero, mkFile small_block (0 + 12), 48, Some ErrSizeTooSmall).
Proof.
  refine (Read_size_too_small InfoStruct_zero small_block 0 48 _ _ _ _ _);
    [ eval_hyp | eval_hyp | eval_hyp | left; split; eval_hyp | eval_hyp ].
Defined.

(** C10: whenever [Read] returns an error, the receiver is returned as it
    was. *)
Theorem Read_error_keeps_receiver (s : InfoStruct) (r : file)
  (s' : InfoStruct) (r' : file) (n : Z) (e : read_error) :
  InfoStruct_Read s r = (s', r', n, Some e) -> s' = s.
Proof.
  unfold InfoStruct_Read, read_payload, binary_read.
  repeat match goal with
         | |- context [match ?x with _ => _ end] => destruct x
         | |- context [if ?x then _ else _] => destruct x
         end;
    intros H; inversion H; subst; reflexivity.
Qed.

Lemma Read_error_keeps_receiver_witness :
  InfoStruct_Read (decode_InfoStruct good_block) (mkFile bad_block 0) =
    (decode_InfoStruct good_block, mkFile bad_block 72, 64,
     Some (ErrChecksum (ChecksumIEEE (slice 0 64 bad_block) + 1) (ChecksumIEEE (slice 0 64 bad_block))))
  /\ decode_InfoStruct good_block = decode_InfoStruct good_block.
Proof.
  assert (H : InfoStruct_Read (decode_InfoStruct good_block) (mkFile bad_block 0) =
    (decode_InfoStruct good_block, mkFile bad_block 72, 64,
     Some (ErrChecksum (ChecksumIEEE (slice 0 64 bad_block) + 1) (ChecksumIEEE (slice 0 64 bad_block)))))
    by (vm_compute; reflexivity).
  split; [exact H | exact (Read_error_keeps_receiver _ _ _ _ _ _ H)].
Defined.

(* ------------------------------------------------------------------------- *)
(** * Sector rounding *)

Lemma wrap64_small (x : Z) : - 2 ^ 63 <= x < 2 ^ 63 -> wrap64 x = x.
Proof.
  intros H. unfold wrap64, int64_of_uint64.
  destruct (Z.le_gt_cases 0 x) as [Hx | Hx].
  - rewrite Z.mod_small by lia.
    destruct (x <? 2 ^ 63) eqn:E; [reflexivity | apply Z.ltb_ge in E; lia].
  - rewrite <- (Z.mod_unique x (2 ^ 64) (-1) (x + 2 ^ 64)) by lia.
    destruct (x + 2 ^ 64 <? 2 ^ 63) eqn:E; [apply Z.ltb_lt in E; lia | lia].
Qed.

Lemma wrap64_add_wrap (x c : Z) : wrap64 (wrap64 x + c) = wrap64 (x + c).
Proof.
  unfold wrap64 at 2, int64_of_uint64.
  destruct (x mod 2 ^ 64 <? 2 ^ 63); unfold wrap64; f_equal.
  - rewrite Z.add_mod_idemp_l by lia. reflexivity.
  - replace (x mod 2 ^ 64 - 2 ^ 64 + c) with (x mod 2 ^ 64 + c + (-1) * 2 ^ 64) by lia.
    rewrite Z.mod_add by lia. rewrite Z.add_mod_idemp_l by lia. reflexivity.
Qed.

(** Without overflow, the rounding is [((S + P - 1) / P) * P]. *)
Lemma round_up_div (S P k : Z) :
  0 <= k <= 62 -> P = 2 ^ k -> 0 <= S -> S + P - 1 < 2 ^ 63 ->
  round_up S P = (S + P - 1) / P * P.
Proof.
  intros Hk HP HS Hov.
  assert (HP1 : 1 <= P) by (subst P; apply (Z.pow_le_mono_r 2 0 k); lia).
  assert (HP2 : P <= 2 ^ 62) by (subst P; apply Z.pow_le_mono_r; lia).
  unfold round_up, sub64, add64.
  replace (wrap64 (S + P) - 1) with (wrap64 (S + P) + -1) by lia.
  rewrite wrap64_add_wrap.
  rewrite (wrap64_small (S + P + -1)) by lia.
  rewrite (wrap64_small (P - 1)) by lia.
  replace (P - 1) with (Z.ones k) by (rewrite Z.ones_equiv; subst P; lia).
  rewrite <- Z.ldiff_land, Z.ldiff_ones_r, Z.shiftl_mul_pow2, Z.shiftr_div_pow2 by lia.
  subst P. replace (S + 2 ^ k + -1) with (S + 2 ^ k - 1) by lia. reflexivity.
Qed.

(** C9: the sizes that reach line 236 are those [InfoStruct.Read] returns,
    at most [65535 * 16 + 65535] (a uint16 size field, times 16 for
    version 2, plus the uint16 footer size), and the sector size is a
    uint16. For every such non-negative size [S] and every power-of-two
    sector size [P = 2^k] that fits in 16 bits, the int64 rounding of line
    236 yields [R] with [R >= S], [R mod P = 0] and [R - S < P]. *)
Theorem round_up_bounds (S P k : Z) :
  0 <= k -> P = 2 ^ k -> P <= 65535 -> 0 <= S <= 65535 * 16 + 65535 ->
  S <= round_up S P /\ round_up S P mod P = 0 /\ round_up S P - S < P.
Proof.
  intros Hk HP HP16 HS.
  assert (Hk16 : k < 16).
  { destruct (Z.lt_ge_cases k 16) as [H | H]; [exact H |].
    assert (2 ^ 16 <= 2 ^ k) by (apply Z.pow_le_mono_r; lia). lia. }
  assert (HP1 : 1 <= P) by (subst P; apply (Z.pow_le_mono_r 2 0 k); lia).
  rewrite (round_up_div S P k ltac:(lia) HP ltac:(lia) ltac:(lia)).
  pose proof (Z.div_mod (S + P - 1) P ltac:(lia)) as Hdm.
  pose proof (Z.mod_pos_bound (S + P - 1) P ltac:(lia)) as Hb.
  split; [|split].
  - lia.
  - apply Z.mod_mul. lia.
  - lia.
Qed.

Lemma round_up_bounds_witness :
  1114095 <= round_up 1114095 512 /\ round_up 1114095 512 mod 512 = 0 /\
  round_up 1114095 512 - 1114095 < 512.
Proof. refine (round_up_bounds 1114095 512 9 _ _ _ _); eval_hyp. Defined.

(** The bound on the size matters: in int64, [S + P - 1] wraps for
    [S = 2^63 - 1], a size [InfoStruct.Read] never returns, and the
    rounding then yields [-2^63]. *)
Lemma round_up_overflow :
  round_up (2 ^ 63 - 1) 512 = - 2 ^ 63.
Proof. vm_compute; reflexivity. Qed.

(* ------------------------------------------------------------------------- *)
(** * The driver: header validation, metadata scan, wipe *)

Lemma validate_header_None (hdr : VolumeHeader) :
  validate_header hdr = None <->
  VerifySignature (vh_Signature hdr) = true /\ 512 <= SectorSize hdr /\
  Guid_String (vh_Guid hdr) = INFO_GUID.
Proof.
  unfold validate_header.
  destruct (VerifySignature (vh_Signature hdr)); cbn [negb];
    [| split; [discriminate | intros [H _]; discriminate]].
  destruct (SectorSize hdr <? 512) eqn:E.
  - apply Z.ltb_lt in E. split; [discriminate | lia].
  - apply Z.ltb_ge in E.
    destruct (String.eqb (Guid_String (vh_Guid hdr)) INFO_GUID) eqn:G; cbn [negb].
    + apply String.eqb_eq in G. tauto.
    + apply String.eqb_neq in G. split; [discriminate | tauto].
Qed.

(** The first step of [analyse] once the offset is known to be valid. *)
Lemma analyse_header (cfg : config) (d : list Z) (hdr : VolumeHeader) (f1 : file) :
  0 <= offset cfg ->
  binary_read VolumeHeader_size decode_VolumeHeader (fst (seek (mkFile d 0) (offset cfg) 0))
    = (Some hdr, f1) ->
  analyse cfg d =
    match validate_header hdr with
    | Some m => Fatal (fatal m [] d)
    | None =>
      let log0 := map (fun p => LogMetadataOffset (fst p) (snd p))
                      (combine (seq 0 3) (vh_InfoOffsets hdr)) in
      let st := scan_loop (offset cfg) (SectorSize hdr) 0 (vh_InfoOffsets hdr)
                  (mkScan f1 InfoStruct_zero 0 [0; 0; 0] log0) in
      if validInfoSize st =? 0 then Fatal (fatal FatalNoMetadata (sc_log st) d)
      else Analysed hdr st
    end.
Proof.
  intros Ho Hr. unfold analyse.
  destruct (offset cfg <? 0) eqn:E; [apply Z.ltb_lt in E; lia|].
  rewrite Hr. reflexivity.
Qed.

(** C2 (as amended): once the header is read at a valid offset, it is
    accepted exactly when its signature verifies, its sector size is at
    least 512 and its GUID renders as [INFO_GUID]; no power-of-two check is
    made. When it is not accepted the run ends through [fatal] with status
    1, nothing printed on standard output, the volume untouched and no
    wipe planned. *)
Theorem header_validation (cfg : config) (d : list Z) (ev : env)
  (hdr : VolumeHeader) (f1 : file) :
  0 <= offset cfg ->
  binary_read VolumeHeader_size decode_VolumeHeader (fst (seek (mkFile d 0) (offset cfg) 0))
    = (Some hdr, f1) ->
  (validate_header hdr = None <->
   VerifySignature (vh_Signature hdr) = true /\ 512 <= SectorSize hdr /\
   Guid_String (vh_Guid hdr) = INFO_GUID) /\
  (~ (VerifySignature (vh_Signature hdr) = true /\ 512 <= SectorSize hdr /\
      Guid_String (vh_Guid hdr) = INFO_GUID) ->
   exists m, main cfg d ev = mkRun 1 [] (Some m) d /\ erase_plan cfg d = None).
Proof.
  intros Ho Hr. split; [apply validate_header_None|].
  intros Hn. destruct (validate_header hdr) as [m|] eqn:V.
  - exists m. unfold main, erase_plan.
    rewrite (analyse_header cfg d hdr f1 Ho Hr), V. split; reflexivity.
  - exfalso. apply Hn. apply validate_header_None. exact V.
Qed.

Definition wipe_config : config := mkConfig 0 false true.

Lemma header_validation_witness :
  (validate_header (decode_VolumeHeader (slice 0 216 (sample_disk 100))) = None <->
   VerifySignature (vh_Signature (decode_VolumeHeader (slice 0 216 (sample_disk 100)))) = true /\
   512 <= SectorSize (decode_VolumeHeader (slice 0 216 (sample_disk 100))) /\
   Guid_String (vh_Guid (decode_VolumeHeader (slice 0 216 (sample_disk 100)))) = INFO_GUID) /\
  (~ (VerifySignature (vh_Signature (decode_VolumeHeader (slice 0 216 (sample_disk 100)))) = true /\
      512 <= SectorSize (decode_VolumeHeader (slice 0 216 (sample_disk 100))) /\
      Guid_String (vh_Guid (decode_VolumeHeader (slice 0 216 (sample_disk 100)))) = INFO_GUID) ->
   exists m, main wipe_config (sample_disk 100) (sample_env 9 9) = mkRun 1 [] (Some m) (sample_disk 100) /\
             erase_plan wipe_config (sample_disk 100) = None).
Proof.
  refine (header_validation wipe_config (sample_disk 100) (sample_env 9 9)
            (decode_VolumeHeader (slice 0 216 (sample_disk 100))) (mkFile (sample_disk 100) 216) _ _);
    [ eval_hyp | vm_compute; reflexivity ].
Defined.

(** C2 as stated fails: a header whose sector size is 1000, not a power of
    two, is accepted. *)
Lemma header_validation_counterexample :
  validate_header (decode_VolumeHeader (slice 0 216 (sample_disk 1000))) = None /\
  SectorSize (decode_VolumeHeader (slice 0 216 (sample_disk 1000))) = 1000 /\
  ~ (exists k, 1000 = 2 ^ k).
Proof.
  split; [vm_compute; reflexivity|]. split; [vm_compute; reflexivity|].
  intros [k Hk].
  destruct (Z.lt_ge_cases k 10) as [Hlt | Hge].
  - destruct (Z.lt_ge_cases k 0) as [Hneg | Hnn].
    + rewrite Z.pow_neg_r in Hk by lia. discriminate.
    + assert (Hc : k = 0 \/ k = 1 \/ k = 2 \/ k = 3 \/ k = 4 \/ k = 5 \/ k = 6 \/
                   k = 7 \/ k = 8 \/ k = 9) by lia.
      repeat destruct Hc as [-> | Hc]; try discriminate; subst k; discriminate.
  - assert (H10 : 2 ^ 10 <= 2 ^ k) by (apply Z.pow_le_mono_r; lia).
    rewrite <- Hk in H10. vm_compute in H10. apply H10. reflexivity.
Qed.

Lemma read_full_data (n : Z) (f : file) (o : option (list Z)) (g : file) :
  read_full n f = (o, g) -> data g = data f.
Proof.
  unfold read_full. destruct (_ || _); intros H; inversion H; reflexivity.
Qed.

Lemma seek_data (f : file) (off whence : Z) : data (fst (seek f off whence)) = data f.
Proof. unfold seek. destruct (_ <? 0); reflexivity. Qed.

Ltac split_reads :=
  repeat match goal with
         | |- context [read_full ?n ?f] =>
           let H := fresh "Hr" in
           destruct (read_full n f) as [[?|] ?] eqn:H; apply read_full_data in H
         | |- context [if ?x then _ else _] => destruct x
         | |- context [match ?x with _ => _ end] => destruct x
         end.

(** Reading a metadata block never changes the file's contents. *)
Lemma Read_data (s : InfoStruct) (r : file) :
  data (snd (fst (fst (InfoStruct_Read s r)))) = data r.
Proof.
  unfold InfoStruct_Read, read_payload, binary_read.
  split_reads; cbn [fst snd]; rewrite ?seek_data in *; congruence.
Qed.

Lemma scan_step_data (base ss : Z) (i : nat) (o : Z) (st : scan_state) :
  data (sc_file (scan_step base ss i o st)) = data (sc_file st).
Proof.
  unfold scan_step.
  pose proof (Read_data (info st) (fst (seek (sc_file st) (add64 base (int64_of_uint64 o)) 0))) as H.
  rewrite seek_data in H.
  destruct (InfoStruct_Read _ _) as [[[s' f'] n] [e|]]; exact H.
Qed.

Lemma scan_loop_data (base ss : Z) (offs : list Z) :
  forall (i : nat) (st : scan_state),
  data (sc_file (scan_loop base ss i offs st)) = data (sc_file st).
Proof.
  induction offs as [|o offs IH]; intros i st; simpl; [reflexivity|].
  rewrite IH. apply scan_step_data.
Qed.

Lemma analyse_data (cfg : config) (d : list Z) (hdr : VolumeHeader) (st : scan_state) :
  analyse cfg d = Analysed hdr st -> data (sc_file st) = d.
Proof.
  unfold analyse, binary_read.
  destruct (offset cfg <? 0); [discriminate|].
  destruct (read_full _ _) as [[b|] f1] eqn:Hr; [|discriminate].
  apply read_full_data in Hr. rewrite seek_data in Hr.
  destruct (validate_header _); [discriminate|].
  destruct (_ =? 0); [discriminate|].
  intros H. set (X := scan_loop _ _ _ _ _) in H.
  assert (Hd : data (sc_file X) = data f1) by apply scan_loop_data.
  injection H. intros <- _. rewrite Hd. exact Hr.
Qed.

Lemma scan_log_grows (base ss : Z) (offs : list Z) :
  forall (i : nat) (st : scan_state),
  exists l, sc_log (scan_loop base ss i offs st) = sc_log st ++ l.
Proof.
  induction offs as [|o offs IH]; intros i st; simpl.
  - exists []. rewrite app_nil_r. reflexivity.
  - destruct (IH (S i) (scan_step base ss i o st)) as [l Hl]. rewrite Hl.
    unfold scan_step.
    destruct (InfoStruct_Read _ _) as [[[s' f'] n] [e|]]; simpl;
      eexists; rewrite <- app_assoc; reflexivity.
Qed.

(** If no "parsed OK" line is printed, no candidate was recorded. *)
Lemma scan_no_parsed (base ss : Z) (offs : list Z) :
  forall (i : nat) (st : scan_state),
  (forall j n, ~ In (LogBlockParsed j n) (sc_log (scan_loop base ss i offs st))) ->
  validInfoSize (scan_loop base ss i offs st) = validInfoSize st.
Proof.
  induction offs as [|o offs IH]; intros i st Hn; simpl in *; [reflexivity|].
  rewrite (IH (S i) _ Hn).
  unfold scan_step in *.
  destruct (InfoStruct_Read _ _) as [[[s' f'] n] [e|]]; simpl; [reflexivity|].
  exfalso.
  match type of Hn with
  | context [scan_loop base ss (S i) offs ?st'] =>
    destruct (scan_log_grows base ss offs (S i) st') as [l Hl]
  end.
  rewrite Hl in Hn. simpl in Hn.
  eapply Hn. apply in_or_app. left. apply in_or_app. right. left. reflexivity.
Qed.

(** C6: when no candidate block validates (no "parsed OK" line is
    printed), the run ends through [fatal] with "invalid or no metadata
    blocks found", status 1, the volume untouched and no erase region
    planned. *)
Theorem no_metadata_fatal (cfg : config) (d : list Z) (ev : env)
  (hdr : VolumeHeader) (f1 : file) :
  0 <= offset cfg ->
  binary_read VolumeHeader_size decode_VolumeHeader (fst (seek (mkFile d 0) (offset cfg) 0))
    = (Some hdr, f1) ->
  validate_header hdr = None ->
  let log0 := map (fun p => LogMetadataOffset (fst p) (snd p))
                  (combine (seq 0 3) (vh_InfoOffsets hdr)) in
  let st := scan_loop (offset cfg) (SectorSize hdr) 0 (vh_InfoOffsets hdr)
              (mkScan f1 InfoStruct_zero 0 [0; 0; 0] log0) in
  (forall j n, ~ In (LogBlockParsed j n) (sc_log st)) ->
  main cfg d ev = mkRun 1 (sc_log st) (Some FatalNoMetadata) d /\
  erase_plan cfg d = None.
Proof.
  intros Ho Hr Hv log0 st Hn.
  pose proof (scan_no_parsed _ _ _ _ _ Hn) as Hz. simpl in Hz. fold st in Hz.
  unfold main, erase_plan.
  rewrite (analyse_header cfg d hdr f1 Ho Hr), Hv. cbv beta iota zeta. fold log0. fold st.
  rewrite Hz. split; reflexivity.
Qed.

Definition sample_hdr_bad : VolumeHeader := decode_VolumeHeader (slice 0 216 sample_disk_bad).

Definition sample_scan_bad : scan_state :=
  scan_loop (offset wipe_config) (SectorSize sample_hdr_bad) 0 (vh_InfoOffsets sample_hdr_bad)
    (mkScan (mkFile sample_disk_bad 216) InfoStruct_zero 0 [0; 0; 0]
       (map (fun p => LogMetadataOffset (fst p) (snd p))
            (combine (seq 0 3) (vh_InfoOffsets sample_hdr_bad)))).

Lemma no_metadata_fatal_witness :
  main wipe_config sample_disk_bad (sample_env 9 9) =
    mkRun 1 (sc_log sample_scan_bad) (Some FatalNoMetadata) sample_disk_bad /\
  erase_plan wipe_config sample_disk_bad = None.
Proof.
  refine (no_metadata_fatal wipe_config sample_disk_bad (sample_env 9 9)
            sample_hdr_bad (mkFile sample_disk_bad 216) _ _ _ _);
    [ eval_hyp | vm_compute; reflexivity | vm_compute; reflexivity
    | intros j n H; vm_compute in H;
      repeat (destruct H as [H | H]; [discriminate H |]); exact H ].
Defined.

(** [wipe_loop] agrees with [wipe_claimed] when every target position is a
    valid int64 file position. *)
Lemma wipe_loop_claimed (ev : env) (base : Z) (regions : list RegionDesc) :
  Forall (fun r => 0 <= base + Offset r < 2 ^ 63) regions ->
  forall (k : nat) (f : file) (log : list log_line),
  wipe_loop ev base k regions f log = wipe_claimed ev base k regions (data f) log.
Proof.
  induction 1 as [|region rest Hr Hrest IH]; intros k f log; simpl; [reflexivity|].
  destruct (rand_read ev k) as [g|]; [|reflexivity].
  assert (Hs : seek f (add64 base (Offset region)) 0 =
               (mkFile (data f) (base + Offset region), true)).
  { unfold add64. rewrite wrap64_small by lia. unfold seek. simpl.
    destruct (base + Offset region <? 0) eqn:E; [apply Z.ltb_lt in E; lia | reflexivity]. }
  rewrite Hs. cbn [fst]. unfold file_write. cbn [pos data].
  destruct (write_ok ev k); rewrite IH; reflexivity.
Qed.

(** C5: with [-wipe], once the analysis succeeded, [main] runs the wipe as
    [wipe_claimed] describes it: for each planned region in list order a
    fresh random buffer of exactly the region's length is written at base
    offset plus region offset; a failed write is reported and the next
    region follows; a failed random generation ends the run through
    [fatal]. The target positions are assumed to be valid int64 file
    positions. *)
Theorem main_wipe_executor (cfg : config) (d : list Z) (ev : env)
  (hdr : VolumeHeader) (st : scan_state) :
  analyse cfg d = Analysed hdr st ->
  doWipe cfg = true ->
  Forall (fun r => 0 <= offset cfg + Offset r < 2 ^ 63)
         (eraseRegions hdr (validInfoSize st) (validInfoOffsets st)) ->
  main cfg d ev =
    wipe_claimed ev (offset cfg) 0
      (eraseRegions hdr (validInfoSize st) (validInfoOffsets st)) d (sc_log st).
Proof.
  intros Ha Hw Hf. unfold main. rewrite Ha, Hw.
  rewrite (wipe_loop_claimed ev (offset cfg) _ Hf).
  rewrite (analyse_data cfg d hdr st Ha). reflexivity.
Qed.

Definition sample_log0 : list log_line :=
  map (fun p => LogMetadataOffset (fst p) (snd p)) (combine (seq 0 3) sample_offsets).

Definition sample_scan : scan_state :=
  scan_loop 0 512 0 sample_offsets
    (mkScan (mkFile (sample_disk 512) 216) InfoStruct_zero 0 [0; 0; 0] sample_log0).

Lemma main_wipe_executor_witness :
  main wipe_config (sample_disk 512) (sample_env 2 9) =
    wipe_claimed (sample_env 2 9) (offset wipe_config) 0
      (eraseRegions (decode_VolumeHeader (slice 0 216 (sample_disk 512)))
         (validInfoSize sample_scan) (validInfoOffsets sample_scan))
      (sample_disk 512) (sc_log sample_scan).
Proof.
  refine (main_wipe_executor wipe_config (sample_disk 512) (sample_env 2 9)
            (decode_VolumeHeader (slice 0 216 (sample_disk 512))) sample_scan _ _ _);
    [ vm_compute; reflexivity | reflexivity
    | unfold eraseRegions; repeat constructor; eval_hyp ].
Defined.

(** C1 (code_bug): on a volume whose only valid block has total size 64
    and whose sector size is 512, the plan overwrites 64 bytes at each
    metadata offset: [validInfoSize] is recorded before line 236 rounds
    the size, so the rounded size (512) only reaches the printed line. *)
Theorem erase_plan_unrounded :
  erase_plan wipe_config (sample_disk 512) =
    Some [ mkRegion "volume header" 0 512;
           mkRegion "metadata block 0" 512 64;
           mkRegion "metadata block 1" 1024 64;
           mkRegion "metadata block 2" 1536 64 ] /\
  round_up 64 512 = 512 /\
  In (LogBlockParsed 0 512) (sc_log sample_scan).
Proof.
  split; [vm_compute; reflexivity|]. split; [vm_compute; reflexivity|].
  vm_compute. tauto.
Qed.

(* ------------------------------------------------------------------------- *)
(** * GUID rendering *)

Definition is_byte (b : Z) : Prop := 0 <= b < 256.

Definition unhex (a : ascii) : Z :=
  let n := Z.of_nat (nat_of_ascii a) in if n <? 65 then n - 48 else n - 55.

Lemma unhex_hexdigit (n : Z) : 0 <= n < 16 -> unhex (hexdigit n) = n.
Proof.
  intros H.
  assert (Hall : forallb (fun m => unhex (hexdigit (Z.of_nat m)) =? Z.of_nat m) (seq 0 16) = true)
    by (vm_compute; reflexivity).
  rewrite forallb_forall in Hall.
  specialize (Hall (Z.to_nat n) ltac:(apply in_seq; lia)).
  apply Z.eqb_eq in Hall. rewrite Z2Nat.id in Hall by lia. exact Hall.
Qed.

Lemma hexw_length (w : nat) (n : Z) : List.length (hexw w n) = w.
Proof.
  revert n. induction w as [|w IH]; intros n; simpl; [reflexivity|].
  rewrite length_app, IH. simpl. lia.
Qed.

Lemma hexw_inj (w : nat) : forall n m,
  0 <= n < 16 ^ Z.of_nat w -> 0 <= m < 16 ^ Z.of_nat w ->
  hexw w n = hexw w m -> n = m.
Proof.
  induction w as [|w IH]; intros n m Hn Hm H.
  - simpl in Hn, Hm. lia.
  - simpl in H. apply app_inj_tail in H as [H1 H2].
    rewrite Nat2Z.inj_succ, Z.pow_succ_r in Hn, Hm by lia.
    assert (Hq : n / 16 = m / 16).
    { apply IH; [split; [apply Z.div_pos; lia | apply Z.div_lt_upper_bound; lia]
                |split; [apply Z.div_pos; lia | apply Z.div_lt_upper_bound; lia] | exact H1]. }
    assert (Hr : n mod 16 = m mod 16).
    { rewrite <- (unhex_hexdigit (n mod 16)), <- (unhex_hexdigit (m mod 16)), H2;
        [reflexivity | apply Z.mod_pos_bound; lia | apply Z.mod_pos_bound; lia]. }
    rewrite (Z.div_mod n 16), (Z.div_mod m 16) by lia. rewrite Hq, Hr. reflexivity.
Qed.

Lemma app_same_length {T : Type} (a b c e : list T) :
  List.length a = List.length c -> a ++ b = c ++ e -> a = c /\ b = e.
Proof.
  revert c. induction a as [|x a IH]; intros [|y c] Hl H; simpl in *;
    try discriminate; [split; [reflexivity | exact H]|].
  injection H as -> H. destruct (IH c ltac:(lia) H) as [-> ->]. split; reflexivity.
Qed.

Lemma le_bound (l : list Z) :
  Forall is_byte l -> 0 <= le l < 256 ^ Z.of_nat (List.length l).
Proof.
  induction 1 as [|x l Hx Hl IH]; [simpl; lia|].
  cbn [le]. change (List.length (x :: l)) with (S (List.length l)).
  rewrite Nat2Z.inj_succ, Z.pow_succ_r by lia. unfold is_byte in Hx. nia.
Qed.

Lemma le_inj (l1 : list Z) : forall l2,
  Forall is_byte l1 -> Forall is_byte l2 -> List.length l1 = List.length l2 ->
  le l1 = le l2 -> l1 = l2.
Proof.
  induction l1 as [|x l1 IH]; intros [|y l2] H1 H2 Hl He; cbn [le List.length] in *;
    try discriminate; [reflexivity|].
  inversion H1 as [|? ? Hx H1']; inversion H2 as [|? ? Hy H2']; subst.
  unfold is_byte in Hx, Hy.
  pose proof (le_bound l1 H1'). pose proof (le_bound l2 H2').
  assert (Hxy : x = y).
  { rewrite <- (Z.mod_small x 256), <- (Z.mod_small y 256) by lia.
    rewrite <- (Z.mod_add x (le l1) 256), <- (Z.mod_add y (le l2) 256) by lia.
    f_equal. lia. }
  subst y. f_equal. apply IH; [exact H1' | exact H2' | lia | lia].
Qed.

Lemma hexw_le_eq (l c : list Z) (w : nat) :
  Forall is_byte l -> Forall is_byte c -> List.length l = List.length c ->
  (2 * List.length l = w)%nat ->
  hexw w (le l) = hexw w (le c) -> l = c.
Proof.
  intros Hl Hc Hlen Hw H.
  pose proof (le_bound l Hl) as Bl. pose proof (le_bound c Hc) as Bc.
  rewrite <- Hlen in Bc.
  assert (E16 : 256 ^ Z.of_nat (List.length l) = 16 ^ Z.of_nat w).
  { subst w. rewrite Nat2Z.inj_mul, Z.pow_mul_r by lia. reflexivity. }
  apply le_inj; [exact Hl | exact Hc | exact Hlen |].
  apply (hexw_inj w); [lia | lia | exact H].
Qed.

Lemma hexw_byte_eq (x c : Z) : is_byte x -> is_byte c -> hexw 2 x = hexw 2 c -> x = c.
Proof. unfold is_byte. intros Hx Hc H. apply (hexw_inj 2); [simpl; lia | simpl; lia | exact H]. Qed.

Lemma app_split {T : Type} (a b c e : list T) :
  a ++ b = c ++ e -> List.length a = List.length c -> a = c /\ b = e.
Proof. intros H Hl. exact (app_same_length a b c e Hl H). Qed.

(** The GUID check of [main] accepts exactly one 16-byte sequence: the
    on-disk little-endian encoding of 4967D63B-2E29-4AD8-8399-F6A339E3D001. *)
Theorem guid_check_exact (b : list Z) :
  List.length b = 16%nat -> Forall is_byte b ->
  (Guid_String (decode_Guid b) = INFO_GUID <-> b = guid_bytes).
Proof.
  intros Hl Hb. split; [|intros ->; vm_compute; reflexivity].
  intros H.
  do 16 (destruct b as [|? b]; [discriminate|]).
  destruct b; [|discriminate].
  repeat match goal with
         | Hf : Forall is_byte (_ :: _) |- _ => inversion Hf; subst; clear Hf
         end.
  unfold decode_Guid, le_at, slice in H. cbn [firstn skipn] in H.
  assert (Hr : list_ascii_of_string INFO_GUID =
    hexw 8 (le [0x3B; 0xD6; 0x67; 0x49]) ++ dash ++ hexw 4 (le [0x29; 0x2E]) ++ dash ++
    hexw 4 (le [0xD8; 0x4A]) ++ dash ++
    hexw 2 0x83 ++ hexw 2 0x99 ++ dash ++
    hexw 2 0xF6 ++ hexw 2 0xA3 ++ hexw 2 0x39 ++
    hexw 2 0xE3 ++ hexw 2 0xD0 ++ hexw 2 0x01)
    by (vm_compute; reflexivity).
  apply (f_equal list_ascii_of_string) in H.
  rewrite Hr in H. unfold Guid_String in H. cbv zeta in H.
  rewrite list_ascii_of_string_of_list_ascii in H. cbn [A B C D E nth] in H.
  repeat match goal with
         | H : ?a ++ _ = ?c ++ _ |- _ =>
           let Hs := fresh "Hs" in let H1 := fresh "Hp" in
           pose proof (app_split _ _ _ _ H) as Hs; clear H;
           specialize (Hs ltac:(rewrite ?hexw_length; reflexivity));
           destruct Hs as [H1 H]
         end.
  repeat match goal with
         | Hp : hexw ?w (le ?l) = hexw ?w (le ?c) |- _ =>
           apply hexw_le_eq in Hp;
             [| repeat constructor; unfold is_byte in *; lia
              | repeat constructor; unfold is_byte in *; lia | reflexivity | reflexivity ]
         | Hp : hexw 2 ?x = hexw 2 ?c |- _ =>
           apply hexw_byte_eq in Hp; [| assumption | unfold is_byte; lia]
         end.
  repeat match goal with Hp : _ :: _ = _ :: _ |- _ => injection Hp; clear Hp; intros end.
  subst. reflexivity.
Qed.

Lemma guid_check_exact_witness :
  Guid_String (decode_Guid guid_bytes) = INFO_GUID <-> guid_bytes = guid_bytes.
Proof.
  refine (guid_check_exact guid_bytes _ _);
    [ reflexivity | apply Forall_forall; intros x Hx; vm_compute in Hx; unfold is_byte;
      repeat (destruct Hx as [<- | Hx]; [lia |]); destruct Hx ].
Defined.

(* ------------------------------------------------------------------------- *)
(** * Failure modes of InfoStruct.Read *)

Lemma read_full_short (n p : Z) (d : list Z) :
  0 < n -> Z.of_nat (List.length d) < p + n ->
  read_full n (mkFile d p) = (None, mkFile d (Z.max p (Z.of_nat (List.length d)))).
Proof.
  intros Hn Hl. unfold read_full, flen. cbn [pos data].
  replace (n =? 0) with false by (symmetry; apply Z.eqb_neq; lia).
  replace (p + n <=? Z.of_nat (List.length d)) with false
    by (symmetry; apply Z.leb_gt; lia).
  reflexivity.
Qed.

(** A candidate whose 12-byte header is cut short by the end of the file,
    or whose signature does not verify, is rejected with size -1 and the
    receiver unchanged. *)
Theorem Read_header_failures (s : InfoStruct) (d : list Z) (p : Z) :
  0 <= p ->
  (Z.of_nat (List.length d) < p + 12 ->
   InfoStruct_Read s (mkFile d p) =
     (s, mkFile d (Z.max p (Z.of_nat (List.length d))), -1, Some ErrShortRead)) /\
  (p + 12 <= Z.of_nat (List.length d) ->
   let sig := slice 0 8 (slice (Z.to_nat p) 12 d) in
   VerifySignature sig = false ->
   InfoStruct_Read s (mkFile d p) = (s, mkFile d (p + 12), -1, Some (ErrBadSignature sig))).
Proof.
  intros Hp. split.
  - intros Hl. unfold InfoStruct_Read, binary_read, InfoStructHeader_size.
    rewrite read_full_short by lia. reflexivity.
  - intros Hl sig Hs. unfold InfoStruct_Read, binary_read, InfoStructHeader_size.
    rewrite read_full_ok by lia. change (Z.to_nat 12) with 12%nat. cbn iota.
    unfold decode_InfoStructHeader at 1. cbn [ih_Signature]. fold sig. rewrite Hs.
    reflexivity.
Qed.

Lemma Read_header_failures_witness :
  (Z.of_nat (List.length (list_of_string "-FVE-FS-")) < 0 + 12 ->
   InfoStruct_Read InfoStruct_zero (mkFile (list_of_string "-FVE-FS-") 0) =
     (InfoStruct_zero, mkFile (list_of_string "-FVE-FS-")
        (Z.max 0 (Z.of_nat (List.length (list_of_string "-FVE-FS-")))), -1, Some ErrShortRead)) /\
  (0 + 12 <= Z.of_nat (List.length (list_of_string "-FVE-FS-")) ->
   let sig := slice 0 8 (slice (Z.to_nat 0) 12 (list_of_string "-FVE-FS-")) in
   VerifySignature sig = false ->
   InfoStruct_Read InfoStruct_zero (mkFile (list_of_string "-FVE-FS-") 0) =
     (InfoStruct_zero, mkFile (list_of_string "-FVE-FS-") (0 + 12), -1, Some (ErrBadSignature sig))).
Proof. refine (Read_header_failures InfoStruct_zero (list_of_string "-FVE-FS-") 0 _). lia. Defined.

(** A metadata block whose header verifies and whose size is at least 64,
    but which the end of the file cuts short, fails with the size of the
    header (not -1) and leaves the position at the end of the file: in the
    payload, io.ReadFull reports a short read; in the 8-byte validation
    header that follows, binary.Read does. *)
Theorem Read_truncated (s : InfoStruct) (d : list Z) (p size : Z) :
  0 <= p -> p + 12 <= Z.of_nat (List.length d) ->
  VerifySignature (ih_Signature (decode_InfoStructHeader (slice (Z.to_nat p) 12 d))) = true ->
  (ih_Version (decode_InfoStructHeader (slice (Z.to_nat p) 12 d)) = 1 /\
   size = ih_Size (decode_InfoStructHeader (slice (Z.to_nat p) 12 d)) \/
   ih_Version (decode_InfoStructHeader (slice (Z.to_nat p) 12 d)) = 2 /\
   size = ih_Size (decode_InfoStructHeader (slice (Z.to_nat p) 12 d)) * 16) ->
  64 <= size ->
  (Z.of_nat (List.length d) < p + size ->
   InfoStruct_Read s (mkFile d p) =
     (s, mkFile d (Z.of_nat (List.length d)), size, Some ErrShortRead)) /\
  (p + size <= Z.of_nat (List.length d) < p + size + 8 ->
   InfoStruct_Read s (mkFile d p) =
     (s, mkFile d (Z.of_nat (List.length d)), size, Some ErrValidationHeader)).
Proof.
  intros Hp Hl Hsig Hv Hs.
  assert (Hr : InfoStruct_Read s (mkFile d p) = read_payload s (mkFile d (p + 12)) size).
  { rewrite (Read_after_header s d p Hp Hl Hsig).
    destruct Hv as [[-> ->] | [-> ->]]; reflexivity. }
  rewrite Hr. clear Hr Hv Hsig.
  assert (Hsk : seek (mkFile d (p + 12)) (- InfoStructHeader_size) 1 = (mkFile d p, true)).
  { unfold seek, InfoStructHeader_size. cbn [pos data]. change (1 =? 0) with false. cbv iota.
    replace (p + 12 + - (12)) with p by lia.
    replace (p <? 0) with false by (symmetry; apply Z.ltb_ge; lia). reflexivity. }
  unfold read_payload. rewrite Hsk. cbn [fst].
  replace (size <? 64) with false by (symmetry; apply Z.ltb_ge; lia).
  split.
  - intros Hlt. rewrite read_full_short by lia.
    replace (Z.max p (Z.of_nat (List.length d))) with (Z.of_nat (List.length d)) by lia.
    reflexivity.
  - intros [Hle Hlt]. rewrite read_full_ok by lia.
    unfold binary_read, ValidationHeader_size. rewrite read_full_short by lia.
    replace (Z.max (p + size) (Z.of_nat (List.length d))) with (Z.of_nat (List.length d)) by lia.
    reflexivity.
Qed.

Definition trunc_block : list Z := firstn 68 (sample_block 1 64 0 0 sample_offsets).

Lemma Read_truncated_witness :
  (Z.of_nat (List.length trunc_block) < 0 + 64 ->
   InfoStruct_Read InfoStruct_zero (mkFile trunc_block 0) =
     (InfoStruct_zero, mkFile trunc_block (Z.of_nat (List.length trunc_block)), 64, Some ErrShortRead)) /\
  (0 + 64 <= Z.of_nat (List.length trunc_block) < 0 + 64 + 8 ->
   InfoStruct_Read InfoStruct_zero (mkFile trunc_block 0) =
     (InfoStruct_zero, mkFile trunc_block (Z.of_nat (List.length trunc_block)), 64, Some ErrValidationHeader)).
Proof.
  refine (Read_truncated InfoStruct_zero trunc_block 0 64 _ _ _ _ _);
    [ lia | vm_compute; discriminate | vm_compute; reflexivity
    | left; vm_compute; split; reflexivity | lia ].
Defined.

(* ------------------------------------------------------------------------- *)
(** * Sizes of parsed blocks and the scan over the three candidates *)

Lemma Forall_slice (P : Z -> Prop) (off len : nat) (l : list Z) :
  Forall P l -> Forall P (slice off len l).
Proof.
  unfold slice. revert l. induction off as [|off IH]; intros l H.
  - cbn [skipn]. revert l H. induction len as [|len IHl]; intros [|x l] H;
      cbn [firstn]; try constructor; inversion H; subst; auto.
  - destruct l as [|x l]; cbn [skipn]; [destruct len; constructor |].
    inversion H; subst. apply IH; assumption.
Qed.

Lemma read_full_forall (P : Z -> Prop) (n : Z) (f g : file) (b : list Z) :
  read_full n f = (Some b, g) -> Forall P (data f) -> Forall P b.
Proof.
  unfold read_full. destruct (_ || _); intros H; inversion H; subst.
  apply Forall_slice.
Qed.

Lemma binary_read_data {A : Type} (n : Z) (dec : list Z -> A) (f g : file) (o : option A) :
  binary_read n dec f = (o, g) -> data g = data f.
Proof.
  unfold binary_read. destruct (read_full n f) as [[b|] f'] eqn:E; intros H;
    inversion H; subst; eapply read_full_data; exact E.
Qed.

Lemma bytes_check (l : list Z) :
  forallb (fun b => (0 <=? b) && (b <? 256)) l = true -> Forall is_byte l.
Proof.
  intros H. apply Forall_forall. intros x Hx.
  pose proof (proj1 (forallb_forall _ l) H x Hx) as Hb.
  apply andb_true_iff in Hb. destruct Hb as [H1 H2].
  apply Z.leb_le in H1. apply Z.ltb_lt in H2. unfold is_byte. lia.
Qed.

Lemma read_payload_ge64 (s : InfoStruct) (r : file) (size : Z)
  (s' : InfoStruct) (r' : file) (n : Z) :
  Forall is_byte (data r) ->
  read_payload s r size = (s', r', n, None) -> 64 <= n.
Proof.
  intros Hb. unfold read_payload.
  destruct (size <? 64) eqn:Es; [discriminate|]. apply Z.ltb_ge in Es.
  destruct (read_full size _) as [[buf|] r2] eqn:E2; [|discriminate].
  pose proof (read_full_data _ _ _ _ E2) as D2. rewrite seek_data in D2.
  unfold binary_read at 1.
  destruct (read_full ValidationHeader_size r2) as [[vb|] r3] eqn:E3; [|discriminate].
  assert (Hvb : Forall is_byte vb).
  { eapply read_full_forall; [exact E3 | rewrite D2; exact Hb]. }
  destruct (negb _); [discriminate|].
  assert (Hv : 0 <= vd_Size (decode_ValidationHeader vb)).
  { unfold decode_ValidationHeader, le_at. cbn [vd_Size].
    apply le_bound, Forall_slice, Hvb. }
  destruct (binary_read _ _ _) as [[x|] ?]; intros H; inversion H; subst;
    unfold decode_ValidationHeader in Hv; cbn [vd_Size] in Hv; lia.
Qed.

Lemma Read_err_receiver (s : InfoStruct) (r : file)
  (s' : InfoStruct) (r' : file) (n : Z) (e : read_error) :
  InfoStruct_Read s r = (s', r', n, Some e) -> s' = s.
Proof.
  unfold InfoStruct_Read, read_payload, binary_read.
  repeat match goal with
         | |- context [match ?x with _ => _ end] => destruct x
         | |- context [if ?x then _ else _] => destruct x
         end;
    intros H; inversion H; subst; reflexivity.
Qed.

Lemma Read_ok_payload (s : InfoStruct) (r : file) (s' : InfoStruct) (r' : file) (n : Z) :
  InfoStruct_Read s r = (s', r', n, None) ->
  exists r1 size, data r1 = data r /\ read_payload s r1 size = (s', r', n, None).
Proof.
  unfold InfoStruct_Read.
  destruct (binary_read _ _ r) as [[hdr|] r1] eqn:E1; [|discriminate].
  apply binary_read_data in E1.
  destruct (negb _); [discriminate|].
  destruct (ih_Version hdr) as [|[q|[q|q|]|]|q]; try discriminate;
    intros H; eexists; eexists; split; [exact E1 | exact H | exact E1 | exact H].
Qed.

(** On a disk of bytes, every block [Read] accepts reports a size of at
    least 64: the payload is at least 64 bytes and the footer's extra size
    is an unsigned 16-bit field. *)
Theorem Read_ok_size (s : InfoStruct) (r : file) (s' : InfoStruct) (r' : file) (n : Z) :
  Forall is_byte (data r) ->
  InfoStruct_Read s r = (s', r', n, None) -> 64 <= n.
Proof.
  intros Hb H. destruct (Read_ok_payload s r s' r' n H) as (r1 & size & Hd & Hp).
  eapply read_payload_ge64; [rewrite Hd; exact Hb | exact Hp].
Qed.

Lemma Read_ok_size_witness : 64 <= 69.
Proof.
  refine (Read_ok_size InfoStruct_zero (mkFile good_block 0)
            (decode_InfoStruct (slice 0 64 good_block)) (mkFile good_block 72) 69 _ _);
    [ apply bytes_check; vm_compute; reflexivity | vm_compute; reflexivity ].
Defined.

(** If none of the lines the rest of the scan prints is a "parsed OK"
    line, the scan ends with what it had recorded before (the size, the
    three offsets and the parsed structure): failed candidates never
    overwrite an earlier valid one, although [Read] works on the shared
    [info] variable. *)
Theorem scan_failures_keep (base ss : Z) (offs : list Z) :
  forall (i : nat) (st : scan_state) (l : list log_line),
  sc_log (scan_loop base ss i offs st) = sc_log st ++ l ->
  (forall j n, ~ In (LogBlockParsed j n) l) ->
  validInfoSize (scan_loop base ss i offs st) = validInfoSize st /\
  validInfoOffsets (scan_loop base ss i offs st) = validInfoOffsets st /\
  info (scan_loop base ss i offs st) = info st.
Proof.
  induction offs as [|o offs IH]; intros i st l Hl Hn; cbn [scan_loop] in *; [auto|].
  unfold scan_step in Hl |- *.
  destruct (InfoStruct_Read _ _) as [[[s' f'] n] [e|]] eqn:ER;
    match goal with
    | |- context [scan_loop base ss (S i) offs ?st'] =>
      destruct (scan_log_grows base ss offs (S i) st') as [l2 Hl2];
      assert (Hsplit : sc_log st' ++ l2 = sc_log st ++ l) by (rewrite <- Hl2; exact Hl)
    end;
    cbn [sc_log] in Hsplit; rewrite <- app_assoc in Hsplit; apply app_inv_head in Hsplit;
    subst l.
  - destruct (IH (S i) _ l2 Hl2 (fun j m H => Hn j m (or_intror H))) as (E1 & E2 & E3).
    rewrite E1, E2, E3. cbn [validInfoSize validInfoOffsets info].
    split; [reflexivity | split; [reflexivity |]]. eapply Read_err_receiver; exact ER.
  - exfalso. apply (Hn i (round_up n ss)). left; reflexivity.
Qed.

(** The state after the valid block at 512 of [sample_disk 512] has been
    parsed; the candidates at 1024 and 1536 then fail. *)
Definition sample_scan1 : scan_state :=
  scan_step 0 512 0 512
    (mkScan (mkFile (sample_disk 512) 216) InfoStruct_zero 0 [0; 0; 0] sample_log0).

Lemma scan_failures_keep_witness :
  validInfoSize (scan_loop 0 512 1 [1024; 1536] sample_scan1) = validInfoSize sample_scan1 /\
  validInfoOffsets (scan_loop 0 512 1 [1024; 1536] sample_scan1) = validInfoOffsets sample_scan1 /\
  info (scan_loop 0 512 1 [1024; 1536] sample_scan1) = info sample_scan1.
Proof.
  refine (scan_failures_keep 0 512 [1024; 1536] 1 sample_scan1
            [LogParseError 1 (ErrBadSignature [0; 0; 0; 0; 0; 0; 0; 0]);
             LogParseError 2 (ErrBadSignature [0; 0; 0; 0; 0; 0; 0; 0])] _ _);
    [ vm_compute; reflexivity
    | intros j n H; vm_compute in H;
      repeat (destruct H as [H | H]; [discriminate H |]); exact H ].
Defined.

Lemma le_slice2_bound (o : nat) (l : list Z) :
  Forall is_byte l -> 0 <= le (slice o 2 l) <= 65535.
Proof.
  intros H. pose proof (le_bound (slice o 2 l) (Forall_slice _ o 2 l H)) as [H0 H1].
  assert (Hl : (List.length (slice o 2 l) <= 2)%nat)
    by (unfold slice; rewrite length_firstn; lia).
  assert (256 ^ Z.of_nat (List.length (slice o 2 l)) <= 256 ^ 2)
    by (apply Z.pow_le_mono_r; lia).
  lia.
Qed.

Lemma read_payload_le (s : InfoStruct) (r : file) (size : Z)
  (s' : InfoStruct) (r' : file) (n : Z) :
  Forall is_byte (data r) ->
  read_payload s r size = (s', r', n, None) -> n <= size + 65535.
Proof.
  intros Hb. unfold read_payload.
  destruct (size <? 64); [discriminate|].
  destruct (read_full size _) as [[buf|] r2] eqn:E2; [|discriminate].
  pose proof (read_full_data _ _ _ _ E2) as D2. rewrite seek_data in D2.
  unfold binary_read at 1.
  destruct (read_full ValidationHeader_size r2) as [[vb|] r3] eqn:E3; [|discriminate].
  assert (Hv : 0 <= le (slice 0 2 vb) <= 65535).
  { apply le_slice2_bound. eapply read_full_forall; [exact E3 | rewrite D2; exact Hb]. }
  destruct (negb _); [discriminate|].
  destruct (binary_read _ _ _) as [[x|] ?]; intros H; inversion H; subst;
    unfold le_at; lia.
Qed.

Lemma Read_ok_payload_bytes (s : InfoStruct) (r : file) (s' : InfoStruct) (r' : file) (n : Z) :
  Forall is_byte (data r) ->
  InfoStruct_Read s r = (s', r', n, None) ->
  exists r1 size, data r1 = data r /\ size <= 65535 * 16 /\
    read_payload s r1 size = (s', r', n, None).
Proof.
  intros Hb. unfold InfoStruct_Read, binary_read at 1.
  destruct (read_full InfoStructHeader_size r) as [[hb|] r1] eqn:E1; [|discriminate].
  cbv beta iota.
  assert (Hs : 0 <= ih_Size (decode_InfoStructHeader hb) <= 65535).
  { apply le_slice2_bound. eapply read_full_forall; [exact E1 | exact Hb]. }
  apply read_full_data in E1.
  destruct (negb _); [discriminate|].
  destruct (ih_Version (decode_InfoStructHeader hb)) as [|[q|[q|q|]|]|q]; try discriminate;
    intros H; eexists; eexists; (split; [exact E1 | split; [| exact H]]); lia.
Qed.

(** On a disk of bytes, every size [Read] reports on success lies between
    64 and [65535 * 16 + 65535]: a uint16 size field, multiplied by 16 for
    version 2, plus the uint16 extra size of the footer. *)
Theorem Read_ok_size_range (s : InfoStruct) (r : file) (s' : InfoStruct) (r' : file) (n : Z) :
  Forall is_byte (data r) ->
  InfoStruct_Read s r = (s', r', n, None) -> 64 <= n <= 65535 * 16 + 65535.
Proof.
  intros Hb H. split.
  - destruct (Read_ok_payload s r s' r' n H) as (r1 & size & Hd & Hp).
    eapply read_payload_ge64; [rewrite Hd; exact Hb | exact Hp].
  - destruct (Read_ok_payload_bytes s r s' r' n Hb H) as (r1 & size & Hd & Hs & Hp).
    pose proof (read_payload_le s r1 size s' r' n ltac:(rewrite Hd; exact Hb) Hp). lia.
Qed.

Lemma Read_ok_size_range_witness : 64 <= 69 <= 65535 * 16 + 65535.
Proof.
  refine (Read_ok_size_range InfoStruct_zero (mkFile good_block 0)
            (decode_InfoStruct (slice 0 64 good_block)) (mkFile good_block 72) 69 _ _);
    [ apply bytes_check; vm_compute; reflexivity | vm_compute; reflexivity ].
Defined.

Lemma scan_parsed_ge64 (base ss : Z) (offs : list Z) :
  forall (i : nat) (st : scan_state),
  Forall is_byte (data (sc_file st)) ->
  (64 <= validInfoSize st \/ forall j n, ~ In (LogBlockParsed j n) (sc_log st)) ->
  64 <= validInfoSize (scan_loop base ss i offs st) \/
  forall j n, ~ In (LogBlockParsed j n) (sc_log (scan_loop base ss i offs st)).
Proof.
  induction offs as [|o offs IH]; intros i st Hb Hi; cbn [scan_loop]; [exact Hi|].
  apply IH; [rewrite scan_step_data; exact Hb |].
  unfold scan_step.
  destruct (InfoStruct_Read _ _) as [[[s' f'] n] [e|]] eqn:ER;
    cbn [validInfoSize sc_log].
  - destruct Hi as [Hi | Hi]; [left; exact Hi | right].
    intros j m Hin. apply in_app_or in Hin. destruct Hin as [Hin | [Hin | []]].
    + exact (Hi j m Hin).
    + discriminate Hin.
  - left. eapply Read_ok_size; [| exact ER]. rewrite seek_data. exact Hb.
Qed.

(** On a disk of bytes, once the scan has printed a "parsed OK" line for
    some candidate, [main] does not stop with the no-metadata error: the
    analysis succeeds and the recorded size is at least 64. *)
Theorem parsed_block_analysed (cfg : config) (d : list Z) (hdr : VolumeHeader) (f1 : file) :
  Forall is_byte d ->
  0 <= offset cfg ->
  binary_read VolumeHeader_size decode_VolumeHeader (fst (seek (mkFile d 0) (offset cfg) 0))
    = (Some hdr, f1) ->
  validate_header hdr = None ->
  let log0 := map (fun p => LogMetadataOffset (fst p) (snd p))
                  (combine (seq 0 3) (vh_InfoOffsets hdr)) in
  let st := scan_loop (offset cfg) (SectorSize hdr) 0 (vh_InfoOffsets hdr)
              (mkScan f1 InfoStruct_zero 0 [0; 0; 0] log0) in
  (exists j n, In (LogBlockParsed j n) (sc_log st)) ->
  analyse cfg d = Analysed hdr st /\ 64 <= validInfoSize st.
Proof.
  intros Hb Ho Hr Hv log0 st Hp.
  assert (Hd : data f1 = d).
  { apply binary_read_data in Hr. rewrite seek_data in Hr. exact Hr. }
  assert (H64 : 64 <= validInfoSize st).
  { destruct (scan_parsed_ge64 (offset cfg) (SectorSize hdr) (vh_InfoOffsets hdr) 0
                (mkScan f1 InfoStruct_zero 0 [0; 0; 0] log0)) as [H | H].
    - cbn [sc_file]. rewrite Hd. exact Hb.
    - right. cbn [sc_log]. intros j n Hin. unfold log0 in Hin.
      apply in_map_iff in Hin. destruct Hin as [x [Hx _]]. discriminate Hx.
    - exact H.
    - destruct Hp as (j & n & Hin). destruct (H j n Hin). }
  split; [| exact H64].
  rewrite (analyse_header cfg d hdr f1 Ho Hr), Hv. cbv beta iota zeta. fold log0. fold st.
  replace (validInfoSize st =? 0) with false by (symmetry; apply Z.eqb_neq; lia).
  reflexivity.
Qed.

Definition sample_hdr : VolumeHeader := decode_VolumeHeader (slice 0 216 (sample_disk 512)).

Definition sample_scan_ok : scan_state :=
  scan_loop (offset wipe_config) (SectorSize sample_hdr) 0 (vh_InfoOffsets sample_hdr)
    (mkScan (mkFile (sample_disk 512) 216) InfoStruct_zero 0 [0; 0; 0]
       (map (fun p => LogMetadataOffset (fst p) (snd p))
            (combine (seq 0 3) (vh_InfoOffsets sample_hdr)))).

Lemma parsed_block_analysed_witness :
  analyse wipe_config (sample_disk 512) = Analysed sample_hdr sample_scan_ok /\
  64 <= validInfoSize sample_scan_ok.
Proof.
  refine (parsed_block_analysed wipe_config (sample_disk 512) sample_hdr
            (mkFile (sample_disk 512) 216) _ _ _ _ _);
    [ apply bytes_check; vm_compute; reflexivity | eval_hyp
    | vm_compute; reflexivity | vm_compute; reflexivity
    | exists 0%nat, 512; vm_compute; repeat (first [left; reflexivity | right]) ].
Defined.

(* ------------------------------------------------------------------------- *)
(** * Exit status and what [main] leaves of the disk *)




(** Failed writes never make [main] fail: when the random generator
    delivers for the four regions, a wipe ends with status 0 and no fatal
    message. *)
Theorem wipe_write_errors_not_fatal (cfg : config) (d : list Z) (ev : env)
  (hdr : VolumeHeader) (st : scan_state) :
  analyse cfg d = Analysed hdr st ->
  (forall k, (k < 4)%nat -> rand_read ev k <> None) ->
  exit_code (main cfg d ev) = 0 /\ stderr (main cfg d ev) = None.
Proof.
  intros Ha Hr. unfold main. rewrite Ha.
  destruct (doWipe cfg); [| split; reflexivity].
  unfold eraseRegions. cbn [wipe_loop].
  destruct (rand_read ev 0) eqn:E0; [| exfalso; apply (Hr 0%nat); [lia | exact E0]].
  destruct (file_write _ _ _ _);
  (destruct (rand_read ev 1) eqn:E1; [| exfalso; apply (Hr 1%nat); [lia | exact E1]]);
  (destruct (file_write _ _ _ _);
  (destruct (rand_read ev 2) eqn:E2; [| exfalso; apply (Hr 2%nat); [lia | exact E2]]));
  (destruct (file_write _ _ _ _);
  (destruct (rand_read ev 3) eqn:E3; [| exfalso; apply (Hr 3%nat); [lia | exact E3]]));
  destruct (file_write _ _ _ _); split; reflexivity.
Qed.

Lemma wipe_write_errors_not_fatal_witness :
  exit_code (main wipe_config (sample_disk 512) (sample_env 2 9)) = 0 /\
  stderr (main wipe_config (sample_disk 512) (sample_env 2 9)) = None.
Proof.
  refine (wipe_write_errors_not_fatal wipe_config (sample_disk 512) (sample_env 2 9)
            sample_hdr sample_scan_ok _ _);
    [ vm_compute; reflexivity
    | intros k Hk; unfold sample_env; cbn [rand_read];
      destruct (Nat.eqb k 9) eqn:E; [apply Nat.eqb_eq in E; lia | discriminate] ].
Defined.

Lemma write_at_length (p : Z) (buf d : list Z) :
  (List.length d <= List.length (write_at p buf d))%nat.
Proof.
  unfold write_at. rewrite !length_app, length_firstn, repeat_length, length_skipn. lia.
Qed.

Lemma write_at_nth (p : Z) (buf d : list Z) (i : nat) :
  (i < List.length d)%nat ->
  ~ (Z.to_nat p <= i < Z.to_nat p + List.length buf)%nat ->
  nth i (write_at p buf d) 0 = nth i d 0.
Proof.
  intros Hi Hout. unfold write_at. set (pn := Z.to_nat p) in *.
  destruct (Nat.lt_ge_cases i pn) as [Hlt | Hge].
  - rewrite app_nth1 by (rewrite length_firstn; lia).
    rewrite nth_firstn. replace (i <? pn)%nat with true by (symmetry; apply Nat.ltb_lt; lia).
    reflexivity.
  - assert (Hb : (pn + List.length buf <= i)%nat) by lia.
    rewrite app_nth2 by (rewrite length_firstn; lia).
    rewrite length_firstn. replace (Nat.min pn (List.length d)) with pn by lia.
    rewrite app_nth2 by (rewrite repeat_length; lia).
    rewrite repeat_length. replace (pn - List.length d)%nat with 0%nat by lia.
    rewrite app_nth2 by lia.
    rewrite nth_skipn. f_equal. lia.
Qed.

Lemma wipe_loop_frame (ev : env) (base : Z) (regions : list RegionDesc) :
  Forall (fun r => 0 <= base + Offset r < 2 ^ 63) regions ->
  forall (k : nat) (f : file) (log : list log_line) (i : nat),
  (i < List.length (data f))%nat ->
  Forall (fun r => ~ (base + Offset r <= Z.of_nat i < base + Offset r + Size r)) regions ->
  nth i (disk (wipe_loop ev base k regions f log)) 0 = nth i (data f) 0.
Proof.
  induction 1 as [|region rest Hr Hrest IH]; intros k f log i Hi Hout; cbn [wipe_loop];
    [reflexivity |].
  inversion Hout as [|? ? Ho Hout']; subst.
  destruct (rand_read ev k) as [g|]; [| reflexivity].
  assert (Hs : seek f (add64 base (Offset region)) 0 =
               (mkFile (data f) (base + Offset region), true)).
  { unfold add64. rewrite wrap64_small by lia. unfold seek. cbn [pos data].
    change (0 =? 0) with true. cbv iota.
    destruct (0 + (base + Offset region) <? 0) eqn:E; [apply Z.ltb_lt in E; lia |].
    replace (0 + (base + Offset region)) with (base + Offset region) by lia. reflexivity. }
  rewrite Hs. cbn [fst]. unfold file_write. cbn [pos data].
  destruct (write_ok ev k).
  - rewrite IH; cbn [data].
    + apply write_at_nth; [exact Hi |].
      rewrite length_map, length_seq. lia.
    + pose proof (write_at_length (base + Offset region)
                    (map g (seq 0 (Z.to_nat (Size region)))) (data f)). lia.
    + exact Hout'.
  - rewrite IH; [reflexivity | exact Hi | exact Hout'].
Qed.

(** Frame of the wipe: a byte of the image that lies in none of the four
    planned regions (each taken from the base offset) keeps its value,
    provided every target is a valid file position. *)
Theorem main_wipe_frame (cfg : config) (d : list Z) (ev : env)
  (hdr : VolumeHeader) (st : scan_state) (i : nat) :
  analyse cfg d = Analysed hdr st ->
  Forall (fun r => 0 <= offset cfg + Offset r < 2 ^ 63)
         (eraseRegions hdr (validInfoSize st) (validInfoOffsets st)) ->
  (i < List.length d)%nat ->
  Forall (fun r => ~ (offset cfg + Offset r <= Z.of_nat i < offset cfg + Offset r + Size r))
         (eraseRegions hdr (validInfoSize st) (validInfoOffsets st)) ->
  nth i (disk (main cfg d ev)) 0 = nth i d 0.
Proof.
  intros Ha Hv Hi Hout. unfold main. rewrite Ha.
  destruct (doWipe cfg); [| reflexivity].
  rewrite <- (analyse_data cfg d hdr st Ha) in *.
  apply wipe_loop_frame; assumption.
Qed.

Lemma main_wipe_frame_witness :
  nth 700 (disk (main wipe_config (sample_disk 512) (sample_env 2 9))) 0 =
  nth 700 (sample_disk 512) 0.
Proof.
  assert (E1 : validInfoSize sample_scan_ok = 64) by (vm_compute; reflexivity).
  assert (E2 : validInfoOffsets sample_scan_ok = [512; 1024; 1536]) by (vm_compute; reflexivity).
  assert (E3 : SectorSize sample_hdr = 512) by (vm_compute; reflexivity).
  refine (main_wipe_frame wipe_config (sample_disk 512) (sample_env 2 9)
            sample_hdr sample_scan_ok 700 _ _ _ _);
    [ vm_compute; reflexivity
    | unfold eraseRegions; rewrite E1, E2, E3; repeat constructor; cbn; lia
    | vm_compute; lia
    | unfold eraseRegions; rewrite E1, E2, E3; repeat constructor; cbn; lia ].
Defined.

(** [main] stops before reading anything when the offset is negative, and
    with the header error when the image has fewer than 216 bytes from the
    offset on; the disk is untouched and nothing is printed on standard
    output. *)
Theorem main_early_fatal (cfg : config) (d : list Z) (ev : env) :
  (offset cfg < 0 -> main cfg d ev = mkRun 1 [] (Some FatalOffsetNegative) d) /\
  (0 <= offset cfg -> Z.of_nat (List.length d) < offset cfg + 216 ->
   main cfg d ev = mkRun 1 [] (Some FatalReadHeader) d).
Proof.
  split.
  - intros Hn. unfold main, analyse.
    replace (offset cfg <? 0) with true by (symmetry; apply Z.ltb_lt; exact Hn).
    reflexivity.
  - intros Hp Hl. unfold main, analyse.
    replace (offset cfg <? 0) with false by (symmetry; apply Z.ltb_ge; exact Hp).
    assert (Hs : seek (mkFile d 0) (offset cfg) 0 = (mkFile d (offset cfg), true)).
    { unfold seek. cbn [pos data]. change (0 =? 0) with true. cbv iota.
      replace (0 + offset cfg <? 0) with false by (symmetry; apply Z.ltb_ge; lia).
      replace (0 + offset cfg) with (offset cfg) by lia. reflexivity. }
    rewrite Hs. cbn [fst]. unfold binary_read, VolumeHeader_size.
    rewrite read_full_short by lia. reflexivity.
Qed.

Lemma main_early_fatal_witness :
  (offset wipe_config < 0 ->
   main wipe_config (firstn 100 (sample_disk 512)) (sample_env 9 9) =
     mkRun 1 [] (Some FatalOffsetNegative) (firstn 100 (sample_disk 512))) /\
  (0 <= offset wipe_config ->
   Z.of_nat (List.length (firstn 100 (sample_disk 512))) < offset wipe_config + 216 ->
   main wipe_config (firstn 100 (sample_disk 512)) (sample_env 9 9) =
     mkRun 1 [] (Some FatalReadHeader) (firstn 100 (sample_disk 512))).
Proof. exact (main_early_fatal wipe_config (firstn 100 (sample_disk 512)) (sample_env 9 9)). Defined.

(* ------------------------------------------------------------------------- *)
(** * The format string of [fatal] *)

Lemma string_snoc (s : string) :
  s = EmptyString \/ exists pre c, s = String.append pre (String c EmptyString).
Proof.
  induction s as [|a s IH]; [left; reflexivity | right].
  destruct IH as [-> | (pre & c & ->)].
  - exists EmptyString, a. reflexivity.
  - exists (String a pre), c. reflexivity.
Qed.

Lemma append_assoc_str (a b c : string) :
  String.append (String.append a b) c = String.append a (String.append b c).
Proof. induction a as [|x a IH]; cbn; [reflexivity | rewrite IH; reflexivity]. Qed.

Lemma fatal_format_snoc (pre : string) (c : ascii) :
  fatal_format (String.append pre (String c EmptyString)) =
  if String.eqb (String c EmptyString) newline
  then String.append pre (String c EmptyString)
  else String.append (String.append pre (String c EmptyString)) newline.
Proof.
  assert (Hl : String.length (String.append pre (String c EmptyString)) = S (String.length pre)).
  { induction pre as [|x pre IH]; cbn; [reflexivity | rewrite IH; reflexivity]. }
  assert (Hs : substring (String.length pre) 1 (String.append pre (String c EmptyString))
               = String c EmptyString).
  { clear Hl. induction pre as [|x pre IH]; cbn; [reflexivity | exact IH]. }
  unfold fatal_format. rewrite Hl. cbn [Nat.ltb Nat.leb andb].
  replace (S (String.length pre) - 1)%nat with (String.length pre) by lia.
  rewrite Hs. destruct (String.eqb _ _); reflexivity.
Qed.

(** The format [fatal] prints ends in exactly the newline it had or the
    one added: the empty format stays empty, any other format ends with a
    newline, and formatting twice adds nothing more. *)
Theorem fatal_format_newline (format : string) :
  (format = EmptyString -> fatal_format format = EmptyString) /\
  (format <> EmptyString -> exists pre, fatal_format format = String.append pre newline) /\
  fatal_format (fatal_format format) = fatal_format format.
Proof.
  destruct (string_snoc format) as [-> | (pre & c & ->)].
  - split; [reflexivity | split; [intros H; contradiction | reflexivity]].
  - assert (Hnl : forall q, fatal_format (String.append q newline) = String.append q newline).
    { intros q. unfold newline at 1. rewrite fatal_format_snoc.
      rewrite String.eqb_refl. reflexivity. }
    rewrite fatal_format_snoc.
    destruct (String.eqb (String c EmptyString) newline) eqn:E.
    + apply String.eqb_eq in E. rewrite E.
      split; [intros H; destruct pre; discriminate |].
      split; [exists pre; reflexivity | apply Hnl].
    + split; [intros H; destruct pre; discriminate |].
      split; [eexists; reflexivity | apply Hnl].
Qed.

Lemma fatal_format_newline_witness :
  (newline = EmptyString -> fatal_format newline = EmptyString) /\
  (newline <> EmptyString -> exists pre, fatal_format newline = String.append pre newline) /\
  fatal_format (fatal_format newline) = fatal_format newline.
Proof. exact (fatal_format_newline newline). Defined.


(* ------------------------------------------------------------------------- *)
(** * What the wipe prints *)

Definition is_overwriting (l : log_line) : bool :=
  match l with LogOverwriting _ _ _ => true | _ => false end.

Definition is_write_error (l : log_line) : bool :=
  match l with LogWriteError => true | _ => false end.

Definition overwriting_line (r : RegionDesc) : log_line :=
  LogOverwriting (Name r) (Offset r) (Size r).

Lemma wipe_loop_log (ev : env) (base : Z) (regions : list RegionDesc) :
  forall (k : nat) (f : file) (log : list log_line),
  (forall j, (k <= j < k + List.length regions)%nat -> rand_read ev j <> None) ->
  exists l, stdout (wipe_loop ev base k regions f log) = log ++ l /\
    filter is_overwriting l = map overwriting_line regions /\
    List.length (filter is_write_error l) =
      List.length (filter (fun j => negb (write_ok ev j)) (seq k (List.length regions))).
Proof.
  induction regions as [|region rest IH]; intros k f log Hr; cbn [wipe_loop].
  - exists []. rewrite app_nil_r. split; [reflexivity | split; reflexivity].
  - cbn [List.length] in Hr.
    destruct (rand_read ev k) as [g|] eqn:Eg; [| exfalso; apply (Hr k); [lia | exact Eg]].
    assert (Hr' : forall j, (S k <= j < S k + List.length rest)%nat -> rand_read ev j <> None)
      by (intros j Hj; apply Hr; lia).
    unfold file_write. cbn [List.length seq filter].
    destruct (write_ok ev k); cbn [negb].
    + match goal with |- context [wipe_loop ev base (S k) rest ?f2 ?lg] =>
        destruct (IH (S k) f2 lg Hr') as (l & Hl & Ho & Hw) end.
      exists (overwriting_line region :: l). unfold overwriting_line in *.
      rewrite Hl, <- app_assoc. split; [reflexivity |].
      cbn [filter is_overwriting is_write_error map]. rewrite Ho. split; [reflexivity | exact Hw].
    + match goal with |- context [wipe_loop ev base (S k) rest ?f2 ?lg] =>
        destruct (IH (S k) f2 lg Hr') as (l & Hl & Ho & Hw) end.
      exists (overwriting_line region :: LogWriteError :: l). unfold overwriting_line in *.
      rewrite Hl, <- !app_assoc. split; [reflexivity |].
      cbn [filter is_overwriting is_write_error map List.length]. rewrite Ho, Hw.
      split; reflexivity.
Qed.

(** When the random generator delivers, the wipe appends to the scan's
    output one "overwriting" line per planned region, in the plan's order,
    and one write-error line per failed write. *)
Theorem main_wipe_log (cfg : config) (d : list Z) (ev : env)
  (hdr : VolumeHeader) (st : scan_state) :
  analyse cfg d = Analysed hdr st ->
  doWipe cfg = true ->
  (forall k, (k < 4)%nat -> rand_read ev k <> None) ->
  exists l, stdout (main cfg d ev) = sc_log st ++ l /\
    filter is_overwriting l =
      map overwriting_line (eraseRegions hdr (validInfoSize st) (validInfoOffsets st)) /\
    List.length (filter is_write_error l) =
      List.length (filter (fun j => negb (write_ok ev j)) (seq 0 4)).
Proof.
  intros Ha Hw Hr. unfold main. rewrite Ha, Hw.
  apply wipe_loop_log. intros j Hj. apply Hr. exact (proj2 Hj).
Qed.

Lemma main_wipe_log_witness :
  exists l, stdout (main wipe_config (sample_disk 512) (sample_env 2 9)) = sc_log sample_scan_ok ++ l /\
    filter is_overwriting l =
      map overwriting_line (eraseRegions sample_hdr (validInfoSize sample_scan_ok)
                              (validInfoOffsets sample_scan_ok)) /\
    List.length (filter is_write_error l) =
      List.length (filter (fun j => negb (write_ok (sample_env 2 9) j)) (seq 0 4)).
Proof.
  refine (main_wipe_log wipe_config (sample_disk 512) (sample_env 2 9)
            sample_hdr sample_scan_ok _ _ _);
    [ vm_compute; reflexivity | reflexivity
    | intros k Hk; unfold sample_env; cbn [rand_read];
      destruct (Nat.eqb k 9) eqn:E; [apply Nat.eqb_eq in E; lia | discriminate] ].
Defined.
